(** * PlayMaster: the realtime audio session of the App component

    A shallow embedding of the session logic of the [App] React component
    (state hooks, refs, the callbacks given to [ai.live.connect], the capture
    callback, the two effects and [toggleMic]) and of [types.ts].

    Conventions of the embedding.
    - React state and refs are the fields of one record, [AppState]; a
      [useState] setter is a record update.
    - Every callback of the component is a function on [AppState]; an
      asynchronous callback also returns how its promise settles.
    - After a callback has run, React renders again when a state value changed
      and runs the effects whose dependencies changed; [render] does this until
      no state value changes. A callback and the renders it causes are one
      step, [dispatch]: they complete before the next event is delivered, and
      an asynchronous callback is not interleaved with another one.
    - What the component does to the outside world (Web Audio, the live
      session, the media devices) is appended to the [trace] field, in order.
    - Times and sample values are rationals: every finite IEEE-754 number is
      one, and scaling a 32-bit float by 32768 is exact in double precision.
      Rounding of the additions on the audio clock is not modelled. *)

From Stdlib Require Import ZArith QArith Qminmax Qround List String Bool Lia.
Import ListNotations.

Local Open Scope string_scope.
Local Open Scope list_scope.

(** ** types.ts *)

Inductive AppStatus : Set :=
| IDLE | FILE_UPLOADED | CONNECTING | READY | LISTENING | SPEAKING | ERROR.

Inductive ScriptType : Set := text | image | raw_text.

Record ScriptContent : Set := mkScript {
  type : ScriptType;
  data : option string;
  textContent : option string;
  name : string
}.

Definition AppStatus_eqb (a b : AppStatus) : bool :=
  match a, b with
  | IDLE, IDLE | FILE_UPLOADED, FILE_UPLOADED | CONNECTING, CONNECTING
  | READY, READY | LISTENING, LISTENING | SPEAKING, SPEAKING | ERROR, ERROR => true
  | _, _ => false
  end.

(** ** JavaScript values used by the component *)

(** Truthiness of an optional string: [undefined] and the empty string are
    falsy. *)
Definition truthy (s : option string) : bool :=
  match s with
  | Some s' => negb (String.eqb s' "")
  | None => false
  end.

(** A JavaScript number: a finite value, NaN, or an infinity ([true] is
    positive). *)
Inductive Number : Set :=
| Finite (q : Q)
| NaN
| Infinity (positive : bool).

(** How the promise of an asynchronous callback settles during the call. *)
Inductive Promise : Set :=
| Fulfilled
| Rejected
| Pending.

(** ** The outside world *)

(** An [AudioBufferSourceNode] is identified by the order of its creation. *)
Definition Source := nat.

(** The one field of an [AudioBuffer] the component reads. *)
Record AudioBuffer : Set := mkBuffer { duration : Q }.

(** The parts of a [LiveServerMessage] the component reads:
    [serverContent?.modelTurn?.parts?.[0]?.inlineData?.data] and the
    truthiness of [serverContent?.interrupted]. *)
Record LiveServerMessage : Set := mkMessage {
  inlineData : option string;
  interrupted : bool
}.

(** Calls that leave the component, in the order they are made. *)
Inductive IO : Set :=
| NewAudioContext (sampleRate : Z)
| LiveConnect (sc : ScriptContent)
| GetUserMedia
| SendRealtimeInput (payload : string) (mimeType : string)
| SourceStart (s : Source) (when : Q) (d : Q)
| SourceStop (s : Source)
| SessionClose.

(** ** The component's state: hooks and refs of [App] *)

Record AppState : Set := mkApp {
  status : AppStatus;                 (* useState(AppStatus.IDLE) *)
  script : option ScriptContent;      (* useState(null) *)
  scriptGen : nat;                    (* identity of the [script] value *)
  isMicOn : bool;                     (* useState(false) *)
  errorMsg : option string;           (* useState(null) *)
  inputAudioContextRef : bool;        (* .current is not null *)
  outputAudioContextRef : bool;
  sessionRef : bool;
  nextStartTimeRef : Q;               (* useRef(0) *)
  sourcesRef : list Source;           (* a Set, in insertion order *)
  micStreamRef : bool;
  scriptProcessorRef : bool;
  isMicOnRef : bool;                  (* useRef(false) *)
  connScript : option ScriptContent;  (* [script] as captured by the callbacks *)
  created : nat;                      (* source nodes created so far *)
  trace : list IO
}.

Definition initial : AppState :=
  mkApp IDLE None 0 false None false false false 0%Q [] false false false None 0 [].

Definition setStatus (v : AppStatus) (st : AppState) : AppState :=
  mkApp v (script st) (scriptGen st) (isMicOn st) (errorMsg st)
    (inputAudioContextRef st) (outputAudioContextRef st) (sessionRef st)
    (nextStartTimeRef st) (sourcesRef st) (micStreamRef st)
    (scriptProcessorRef st) (isMicOnRef st) (connScript st) (created st) (trace st).

(** [setScript]: a new object is a new identity; [null] over [null] is no
    change. *)
Definition setScript (v : option ScriptContent) (st : AppState) : AppState :=
  match v, script st with
  | None, None => st
  | _, _ =>
    mkApp (status st) v (S (scriptGen st)) (isMicOn st) (errorMsg st)
      (inputAudioContextRef st) (outputAudioContextRef st) (sessionRef st)
      (nextStartTimeRef st) (sourcesRef st) (micStreamRef st)
      (scriptProcessorRef st) (isMicOnRef st) (connScript st) (created st) (trace st)
  end.

Definition setIsMicOn (v : bool) (st : AppState) : AppState :=
  mkApp (status st) (script st) (scriptGen st) v (errorMsg st)
    (inputAudioContextRef st) (outputAudioContextRef st) (sessionRef st)
    (nextStartTimeRef st) (sourcesRef st) (micStreamRef st)
    (scriptProcessorRef st) (isMicOnRef st) (connScript st) (created st) (trace st).

Definition setErrorMsg (v : option string) (st : AppState) : AppState :=
  mkApp (status st) (script st) (scriptGen st) (isMicOn st) v
    (inputAudioContextRef st) (outputAudioContextRef st) (sessionRef st)
    (nextStartTimeRef st) (sourcesRef st) (micStreamRef st)
    (scriptProcessorRef st) (isMicOnRef st) (connScript st) (created st) (trace st).

Definition setAudioContexts (st : AppState) : AppState :=
  mkApp (status st) (script st) (scriptGen st) (isMicOn st) (errorMsg st)
    true true (sessionRef st)
    (nextStartTimeRef st) (sourcesRef st) (micStreamRef st)
    (scriptProcessorRef st) (isMicOnRef st) (connScript st) (created st) (trace st).

Definition setSessionRef (v : bool) (st : AppState) : AppState :=
  mkApp (status st) (script st) (scriptGen st) (isMicOn st) (errorMsg st)
    (inputAudioContextRef st) (outputAudioContextRef st) v
    (nextStartTimeRef st) (sourcesRef st) (micStreamRef st)
    (scriptProcessorRef st) (isMicOnRef st) (connScript st) (created st) (trace st).

Definition setNextStartTime (v : Q) (st : AppState) : AppState :=
  mkApp (status st) (script st) (scriptGen st) (isMicOn st) (errorMsg st)
    (inputAudioContextRef st) (outputAudioContextRef st) (sessionRef st)
    v (sourcesRef st) (micStreamRef st)
    (scriptProcessorRef st) (isMicOnRef st) (connScript st) (created st) (trace st).

Definition setSources (v : list Source) (st : AppState) : AppState :=
  mkApp (status st) (script st) (scriptGen st) (isMicOn st) (errorMsg st)
    (inputAudioContextRef st) (outputAudioContextRef st) (sessionRef st)
    (nextStartTimeRef st) v (micStreamRef st)
    (scriptProcessorRef st) (isMicOnRef st) (connScript st) (created st) (trace st).

Definition setCapture (st : AppState) : AppState :=
  mkApp (status st) (script st) (scriptGen st) (isMicOn st) (errorMsg st)
    (inputAudioContextRef st) (outputAudioContextRef st) (sessionRef st)
    (nextStartTimeRef st) (sourcesRef st) true
    true (isMicOnRef st) (connScript st) (created st) (trace st).

Definition setIsMicOnRef (v : bool) (st : AppState) : AppState :=
  mkApp (status st) (script st) (scriptGen st) (isMicOn st) (errorMsg st)
    (inputAudioContextRef st) (outputAudioContextRef st) (sessionRef st)
    (nextStartTimeRef st) (sourcesRef st) (micStreamRef st)
    (scriptProcessorRef st) v (connScript st) (created st) (trace st).

Definition setConnScript (v : option ScriptContent) (st : AppState) : AppState :=
  mkApp (status st) (script st) (scriptGen st) (isMicOn st) (errorMsg st)
    (inputAudioContextRef st) (outputAudioContextRef st) (sessionRef st)
    (nextStartTimeRef st) (sourcesRef st) (micStreamRef st)
    (scriptProcessorRef st) (isMicOnRef st) v (created st) (trace st).

Definition createSource (st : AppState) : AppState :=
  mkApp (status st) (script st) (scriptGen st) (isMicOn st) (errorMsg st)
    (inputAudioContextRef st) (outputAudioContextRef st) (sessionRef st)
    (nextStartTimeRef st) (sourcesRef st) (micStreamRef st)
    (scriptProcessorRef st) (isMicOnRef st) (connScript st) (S (created st)) (trace st).

Definition io (l : list IO) (st : AppState) : AppState :=
  mkApp (status st) (script st) (scriptGen st) (isMicOn st) (errorMsg st)
    (inputAudioContextRef st) (outputAudioContextRef st) (sessionRef st)
    (nextStartTimeRef st) (sourcesRef st) (micStreamRef st)
    (scriptProcessorRef st) (isMicOnRef st) (connScript st) (created st) (trace st ++ l).

(** [Set.prototype.add] and [Set.prototype.delete] on a Set kept in insertion
    order. *)
Definition set_add (s : Source) (l : list Source) : list Source :=
  if existsb (Nat.eqb s) l then l else l ++ [s].

Definition set_delete (s : Source) (l : list Source) : list Source :=
  filter (fun x => negb (Nat.eqb s x)) l.

(** ** PCM conversion in the capture callback *)

(** The product of a sample and a finite constant, as [inputData[i] * 32768]. *)
Definition Number_scale (x : Number) (k : Q) : Number :=
  match x with
  | Finite q => Finite (q * k)
  | NaN => NaN
  | Infinity p => Infinity p
  end.

(** The integer part of a rational, rounding toward zero. *)
Definition truncate (q : Q) : Z := Z.quot (Qnum q) (Z.pos (Qden q)).

(** ECMAScript [ToInt16], the conversion applied by a store into an
    [Int16Array]: a value that is not finite gives 0; otherwise truncate,
    reduce modulo 2^16, and read the result as a signed 16-bit integer. *)
Definition ToInt16 (x : Number) : Z :=
  match x with
  | Finite q =>
    let int := truncate q in
    let int16bit := (int mod 2 ^ 16)%Z in
    if (2 ^ 15 <=? int16bit)%Z then (int16bit - 2 ^ 16)%Z else int16bit
  | NaN | Infinity _ => 0%Z
  end.

(** The loop [int16[i] = inputData[i] * 32768]. *)
Definition floatToInt16 (inputData : list Number) : list Z :=
  map (fun x => ToInt16 (Number_scale x 32768)) inputData.

(** The two bytes of a 16-bit element as [new Uint8Array(int16.buffer)] shows
    them, low byte first. *)
Definition int16Bytes (v : Z) : list Z :=
  [Z.land v 255; Z.land (Z.shiftr v 8) 255].

Definition floatToPCM16 (inputData : list Number) : list Z :=
  flat_map int16Bytes (floatToInt16 inputData).

(** The conversion in the words of the specification: scale by 32768,
    truncate, and wrap the integer into the signed 16-bit range. *)
Definition wrapInt16 (n : Z) : Z := ((n + 2 ^ 15) mod 2 ^ 16 - 2 ^ 15)%Z.

Definition pcm16 (x : Q) : Z := wrapInt16 (truncate (x * 32768)).

(** ** Events *)

(** What can happen to a mounted component: a user action, a callback of the
    live session, the completion of a playback source, a step of the
    asynchronous body of [connectToGemini], or a capture frame. *)
Inductive Event : Set :=
| ScriptLoaded (sc : ScriptContent)     (* reader.onload, handlePasteSubmit *)
| ResetClicked                          (* the Reset Game Data button *)
| MicClicked                            (* toggleMic *)
| SessionOpened                         (* callbacks.onopen *)
| MessageReceived (message : LiveServerMessage) (currentTime : Q)
| SourceEnded (source : Source)         (* source.onended *)
| SessionError                          (* callbacks.onerror *)
| SessionClosed                         (* callbacks.onclose *)
| SessionResolved                       (* await sessionPromise returns *)
| MicStreamGranted                      (* await getUserMedia returns *)
| ConnectThrew                          (* the catch block of connectToGemini *)
| AudioProcess (inputData : list Number).

(** ** utils/audioUtils *)

(** The helpers of [utils/audioUtils], which the component imports: [encode]
    turns bytes into transport text, and [decodeAudio payload] is
    [decodeAudioData(decode(payload), ctx, 24000, 1)], [None] when it throws. *)
Class AudioUtils : Type := {
  encode : list Z -> string;
  decodeAudio : string -> option AudioBuffer
}.

Section Component.

Context {utils : AudioUtils}.

(** *** connectToGemini *)

(** The body up to its first [await]. *)
Definition connectToGemini (st : AppState) : AppState * Promise :=
  match script st with
  | None => (st, Fulfilled)
  | Some sc =>
    let st := setStatus CONNECTING st in
    let st := setErrorMsg None st in
    let st := setAudioContexts (io [NewAudioContext 16000; NewAudioContext 24000] st) in
    let st := setConnScript (Some sc) (io [LiveConnect sc] st) in
    (st, Pending)
  end.

(** After [await sessionPromise]. *)
Definition connect_resolved (st : AppState) : AppState :=
  io [GetUserMedia] (setSessionRef true st).

(** After [await getUserMedia]: the processor is created and wired. *)
Definition connect_capturing (st : AppState) : AppState :=
  setCapture st.

Definition connect_catch (st : AppState) : AppState :=
  setStatus ERROR
    (setErrorMsg
       (Some "Failed to connect to AI Host. Please check microphone permissions.") st).

(** *** The callbacks given to ai.live.connect *)

Definition onopen (st : AppState) : AppState :=
  let st := setStatus READY st in
  match connScript st with
  | Some sc =>
    match type sc, data sc with
    | image, Some d =>
      if truthy (Some d) then io [SendRealtimeInput d "image/jpeg"] st else st
    | _, _ => st
    end
  | None => st
  end.

(** [source.onended] of the source created for one message. *)
Definition onended (source : Source) (st : AppState) : AppState :=
  let st := setSources (set_delete source (sourcesRef st)) st in
  if Nat.eqb (List.length (sourcesRef st)) 0
  then setStatus (if isMicOnRef st then LISTENING else READY) st
  else st.

(** The branch taken when [message.serverContent?.interrupted] is truthy. *)
Definition onInterrupted (st : AppState) : AppState :=
  let st := io (map SourceStop (sourcesRef st)) st in
  let st := setSources [] st in
  setNextStartTime 0 st.

Definition onmessage (message : LiveServerMessage) (currentTime : Q)
    (st : AppState) : AppState * Promise :=
  let interruption st :=
    if interrupted message then onInterrupted st else st in
  match inlineData message with
  | Some base64Audio =>
    if truthy (Some base64Audio) then
      let st := setStatus SPEAKING st in
      let st := setNextStartTime (Qmax (nextStartTimeRef st) currentTime) st in
      match decodeAudio base64Audio with
      | None => (st, Rejected)
      | Some audioBuffer =>
        let source := created st in
        let st := createSource st in
        let st := io [SourceStart source (nextStartTimeRef st) (duration audioBuffer)] st in
        let st := setNextStartTime (nextStartTimeRef st + duration audioBuffer) st in
        let st := setSources (set_add source (sourcesRef st)) st in
        (interruption st, Fulfilled)
      end
    else (interruption st, Fulfilled)
  | None => (interruption st, Fulfilled)
  end.

Definition onerror (st : AppState) : AppState :=
  setStatus ERROR
    (setErrorMsg
       (Some "Connection error occurred. Check your API key or network.") st).

Definition onclose (st : AppState) : AppState :=
  setSessionRef false (setStatus IDLE st).

(** *** The capture callback *)

Definition onaudioprocess (inputData : list Number) (st : AppState) : AppState :=
  if isMicOnRef st then
    io [SendRealtimeInput (encode (floatToPCM16 inputData)) "audio/pcm;rate=16000"] st
  else st.

(** *** User actions *)

Definition scriptLoaded (sc : ScriptContent) (st : AppState) : AppState :=
  setStatus FILE_UPLOADED (setScript (Some sc) st).

Definition resetClicked (st : AppState) : AppState :=
  let st := setScript None st in
  let st := setStatus IDLE st in
  let st := setIsMicOn false st in
  if sessionRef st then io [SessionClose] st else st.

Definition toggleMic (st : AppState) : AppState :=
  match status st with
  | IDLE | ERROR => st
  | _ => setIsMicOn (negb (isMicOn st)) st
  end.

(** [String.prototype.trim] on a string of code units below 256: the white
    space and line terminators of ECMAScript in that range are TAB, LF, VT,
    FF, CR, SP and NBSP. *)
Definition isWhiteSpace (c : Ascii.ascii) : bool :=
  let n := Ascii.nat_of_ascii c in
  ((9 <=? n) && (n <=? 13) || Nat.eqb n 32 || Nat.eqb n 160)%nat.

Fixpoint trimStart (s : string) : string :=
  match s with
  | EmptyString => EmptyString
  | String c s' => if isWhiteSpace c then trimStart s' else s
  end.

Fixpoint trimEnd (s : string) : string :=
  match s with
  | EmptyString => EmptyString
  | String c s' =>
    match trimEnd s' with
    | EmptyString => if isWhiteSpace c then EmptyString else String c EmptyString
    | String _ _ as r => String c r
    end
  end.

Definition trim (s : string) : string := trimEnd (trimStart s).

(** [handlePasteSubmit], given the value of the [pastedText] hook. *)
Definition handlePasteSubmit (pastedText : string) (st : AppState) : AppState :=
  if String.eqb (trim pastedText) "" then st
  else
    let st := setScript
                (Some (mkScript raw_text None (Some pastedText) "Pasted Rules")) st in
    setStatus FILE_UPLOADED st.

(** *** The effects *)

(** The values the second effect depends on: [isMicOn], [status] and
    [connectToGemini], which is a new function exactly when [script] is a new
    value. *)
Definition Deps : Set := (bool * AppStatus * nat)%type.

Definition deps (st : AppState) : Deps := (isMicOn st, status st, scriptGen st).

Definition Deps_eqb (a b : Deps) : bool :=
  let '(m1, s1, g1) := a in
  let '(m2, s2, g2) := b in
  Bool.eqb m1 m2 && AppStatus_eqb s1 s2 && Nat.eqb g1 g2.

Definition effect_micRef (st : AppState) : AppState :=
  setIsMicOnRef (isMicOn st) st.

Definition effect_status (st : AppState) : AppState :=
  if isMicOn st && (AppStatus_eqb (status st) READY
                    || AppStatus_eqb (status st) FILE_UPLOADED) then
    if negb (sessionRef st) then fst (connectToGemini st)
    else setStatus LISTENING st
  else if negb (isMicOn st) && AppStatus_eqb (status st) LISTENING then
    setStatus READY st
  else st.

(** The effects of one commit: each runs when one of its dependencies differs
    from the previous render. *)
Definition run_effects (prev : Deps) (st : AppState) : AppState :=
  let st1 :=
    if Bool.eqb (fst (fst prev)) (isMicOn st) then st else effect_micRef st in
  if Deps_eqb prev (deps st) then st1 else effect_status st1.

(** Render until the state values are those of the previous render. *)
Fixpoint render (fuel : nat) (prev : Deps) (st : AppState) : option AppState :=
  if Deps_eqb prev (deps st) then Some st
  else
    match fuel with
    | O => None
    | S fuel' => render fuel' (deps st) (run_effects prev st)
    end.

(** *** One event *)

Definition handle (ev : Event) (st : AppState) : AppState :=
  match ev with
  | ScriptLoaded sc => scriptLoaded sc st
  | ResetClicked => resetClicked st
  | MicClicked => toggleMic st
  | SessionOpened => onopen st
  | MessageReceived message currentTime => fst (onmessage message currentTime st)
  | SourceEnded source => onended source st
  | SessionError => onerror st
  | SessionClosed => onclose st
  | SessionResolved => connect_resolved st
  | MicStreamGranted => connect_capturing st
  | ConnectThrew => connect_catch st
  | AudioProcess inputData => onaudioprocess inputData st
  end.

(** The callback, then the renders it causes. Three renders always suffice
    ([render_terminates]). *)
Definition dispatch (ev : Event) (st : AppState) : AppState :=
  let st' := handle ev st in
  match render 3 (deps st) st' with
  | Some st'' => st''
  | None => st'
  end.

Definition run (evs : list Event) (st : AppState) : AppState :=
  fold_left (fun s ev => dispatch ev s) evs st.

(** ** Observations on a state *)

(** A message whose audio payload is truthy and decodes. *)
Definition decodes (message : LiveServerMessage) (audioBuffer : AudioBuffer) : Prop :=
  exists base64Audio,
    inlineData message = Some base64Audio /\
    truthy (Some base64Audio) = true /\
    decodeAudio base64Audio = Some audioBuffer.

(** A message whose audio payload is truthy and makes the decoder throw. *)
Definition malformed (message : LiveServerMessage) : Prop :=
  exists base64Audio,
    inlineData message = Some base64Audio /\
    truthy (Some base64Audio) = true /\
    decodeAudio base64Audio = None.

(** The state after the enqueue part of [onmessage], before the check of
    [interrupted]. *)
Definition enqueued (audioBuffer : AudioBuffer) (now : Q) (st : AppState) : AppState :=
  let start := Qmax (nextStartTimeRef st) now in
  setSources (set_add (created st) (sourcesRef st))
    (setNextStartTime (start + duration audioBuffer)
       (io [SourceStart (created st) start (duration audioBuffer)]
          (createSource (setStatus SPEAKING st)))).


(** An event that neither enqueues nor flushes: everything but a message with
    an audio payload or an interruption flag. *)
Definition quiet (ev : Event) : bool :=
  match ev with
  | MessageReceived message _ =>
    negb (truthy (inlineData message)) && negb (interrupted message)
  | _ => true
  end.

(** The start times and durations given to [source.start], in call order. *)
Fixpoint starts (l : list IO) : list (Q * Q) :=
  match l with
  | [] => []
  | SourceStart _ when d :: l' => (when, d) :: starts l'
  | _ :: l' => starts l'
  end.

(** The payloads of the microphone frames sent upstream, in call order. *)
Fixpoint audioSends (l : list IO) : list string :=
  match l with
  | [] => []
  | SendRealtimeInput payload mimeType :: l' =>
    if String.eqb mimeType "audio/pcm;rate=16000"
    then payload :: audioSends l' else audioSends l'
  | _ :: l' => audioSends l'
  end.

(** The fields of the playback scheduler, with the source starts and the
    frame sends of the trace. *)
Record Playback : Type := mkPlayback {
  pb_next : Q;
  pb_sources : list Source;
  pb_created : nat;
  pb_micRef : bool;
  pb_starts : list (Q * Q);
  pb_sends : list string
}.

Definition playback (st : AppState) : Playback :=
  mkPlayback (nextStartTimeRef st) (sourcesRef st) (created st) (isMicOnRef st)
    (starts (trace st)) (audioSends (trace st)).

(** The pending set is not empty exactly when the status is SPEAKING. *)
Definition speaking_iff_pending (st : AppState) : Prop :=
  status st = SPEAKING <-> sourcesRef st <> [].

(** The number of calls of [ai.live.connect] in a trace. *)
Fixpoint connects (l : list IO) : nat :=
  match l with
  | [] => O
  | LiveConnect _ :: l' => S (connects l')
  | _ :: l' => connects l'
  end.

(** No source is pending twice, and every pending source has been created. *)
Definition pending_fresh (st : AppState) : Prop :=
  NoDup (sourcesRef st) /\ Forall (fun s => (s < created st)%nat) (sourcesRef st).


(** The events after which the session is unusable: [onerror], [onclose] and
    the catch block of [connectToGemini]. *)
Definition ends_session (ev : Event) : bool :=
  match ev with
  | SessionError | SessionClosed | ConnectThrew => true
  | _ => false
  end.


End Component.

(** ** Stand-ins for utils/audioUtils *)

(** Modelled from the spec: [encode], [decode] and [decodeAudioData] of
    utils/audioUtils are not among the sources. The theorems below hold for
    every choice of them; these definitions give one choice, for evaluating the
    component on concrete inputs. The transport text is base64 without
    padding, the decoded bytes are 16-bit samples at 24000 Hz, and the
    duration of a buffer is its sample count divided by the sample rate. *)
Definition base64Alphabet : string :=
  "ABCDEFGHIJKLMNOPQRSTUVWXYZabcdefghijklmnopqrstuvwxyz0123456789+/".

Fixpoint allIn (alphabet s : string) : bool :=
  match s with
  | EmptyString => true
  | String c s' =>
    existsb (Ascii.eqb c) (list_ascii_of_string alphabet) && allIn alphabet s'
  end.

Definition demoDecodeAudio (payload : string) : option AudioBuffer :=
  let n := String.length payload in
  if allIn base64Alphabet payload && Nat.eqb (n mod 4) 0 then
    let bytes := (n / 4 * 3)%nat in
    if Nat.eqb (bytes mod 2) 0
    then Some (mkBuffer (Z.of_nat (bytes / 2) # 24000))
    else None
  else None.

Definition sextet (n : Z) : string :=
  match get (Z.to_nat n) base64Alphabet with
  | Some c => String c ""
  | None => ""
  end.

Fixpoint demoEncode (bytes : list Z) : string :=
  match bytes with
  | a :: b :: c :: rest =>
    let w := (a * 65536 + b * 256 + c)%Z in
    (sextet (w / 262144) ++ sextet (w / 4096 mod 64) ++ sextet (w / 64 mod 64)
      ++ sextet (w mod 64) ++ demoEncode rest)%string
  | [a; b] =>
    let w := (a * 65536 + b * 256)%Z in
    (sextet (w / 262144) ++ sextet (w / 4096 mod 64) ++ sextet (w / 64 mod 64))%string
  | [a] =>
    let w := (a * 65536)%Z in
    (sextet (w / 262144) ++ sextet (w / 4096 mod 64))%string
  | [] => ""
  end.

Definition demoUtils : AudioUtils :=
  {| encode := demoEncode; decodeAudio := demoDecodeAudio |}.

(** ** Concrete sessions *)

Definition demoScript : ScriptContent :=
  mkScript raw_text None (Some "Cthulhu rules text") "Pasted Rules".

Definition demoDispatch : Event -> AppState -> AppState :=
  dispatch (utils := demoUtils).

Definition demoRun : list Event -> AppState -> AppState :=
  run (utils := demoUtils).

(** A session that is open with the microphone off: rules pasted, microphone
    switched on (which connects), session obtained, channel open, capture
    stream obtained, microphone switched off again. *)
Definition demoReady : AppState :=
  demoRun
    [ScriptLoaded demoScript; MicClicked; SessionResolved; SessionOpened;
     MicStreamGranted; MicClicked] initial.

(** A message carrying three samples of audio, one whose payload does not
    decode, and an interruption. *)
Definition demoChunk : LiveServerMessage := mkMessage (Some "AAAAAAAA") false.
Definition demoMalformed : LiveServerMessage := mkMessage (Some "!!!!") false.
Definition demoInterruption : LiveServerMessage := mkMessage None true.

(** Two chunks pending. *)
Definition demoPlaying : AppState :=
  demoRun [MessageReceived demoChunk 0; MessageReceived demoChunk 0] demoReady.

(** The open session after [onerror]. *)
Definition demoError : AppState := demoDispatch SessionError demoReady.

(** A script that is an image, and the state in which the channel is about to
    open for it: image loaded, microphone switched on, session obtained. *)
Definition demoImage : ScriptContent :=
  mkScript image (Some "AAAA") None "map.png".


(** The open session with the microphone on. *)
Definition demoListening : AppState := demoDispatch MicClicked demoReady.

(** * Properties *)

Section Properties.

Context {utils : AudioUtils}.

(** ** Rendering *)

Lemma AppStatus_eqb_refl (s : AppStatus) : AppStatus_eqb s s = true.
Proof. destruct s; reflexivity. Qed.

Lemma AppStatus_eqb_eq (a b : AppStatus) : AppStatus_eqb a b = true <-> a = b.
Proof.
  split.
  - destruct a, b; simpl; intro H; try reflexivity; discriminate H.
  - intros ->. apply AppStatus_eqb_refl.
Qed.

Lemma Deps_eqb_refl (d : Deps) : Deps_eqb d d = true.
Proof.
  destruct d as [[m s] g]. simpl.
  now rewrite Bool.eqb_reflx, AppStatus_eqb_refl, Nat.eqb_refl.
Qed.

Lemma Deps_eqb_eq (a b : Deps) : Deps_eqb a b = true <-> a = b.
Proof.
  split.
  - destruct a as [[m1 s1] g1], b as [[m2 s2] g2]. simpl. intro H.
    apply andb_prop in H as [H Hg]. apply andb_prop in H as [Hm Hs].
    apply Bool.eqb_prop in Hm. apply AppStatus_eqb_eq in Hs.
    apply Nat.eqb_eq in Hg. now subst.
  - intros ->. apply Deps_eqb_refl.
Qed.

(** The second effect changes nothing when run again on its own result. *)
Lemma effect_status_idem (st : AppState) :
  effect_status (effect_status st) = effect_status st.
Proof.
  destruct st as [s sc g m e i o ses n srcs ms sp mr cs c t].
  destruct m, s, ses, sc; cbv; reflexivity.
Qed.

Lemma effect_status_isMicOn (st : AppState) :
  isMicOn (effect_status st) = isMicOn st.
Proof.
  destruct st as [s sc g m e i o ses n srcs ms sp mr cs c t].
  destruct m, s, ses, sc; cbv; reflexivity.
Qed.

Lemma run_effects_isMicOn (prev : Deps) (st : AppState) :
  isMicOn (run_effects prev st) = isMicOn st.
Proof.
  unfold run_effects.
  destruct (Deps_eqb prev (deps st)), (Bool.eqb (fst (fst prev)) (isMicOn st));
    rewrite ?effect_status_isMicOn; reflexivity.
Qed.

(** A render that follows an effect run never runs a second, different
    effect: the loop of [render] stops by itself. *)
Lemma render_unfold (prev : Deps) (st : AppState) :
  render 3 prev st =
  Some (if Deps_eqb prev (deps st) then st else run_effects prev st).
Proof.
  cbn [render].
  destruct (Deps_eqb prev (deps st)) eqn:Hprev; [reflexivity|].
  set (st1 := run_effects prev st).
  destruct (Deps_eqb (deps st) (deps st1)) eqn:H1; [reflexivity|].
  assert (Hagain : run_effects (deps st) st1 = st1).
  { unfold run_effects at 1. rewrite H1.
    replace (fst (fst (deps st))) with (isMicOn st) by reflexivity.
    unfold st1 at 1. rewrite run_effects_isMicOn, Bool.eqb_reflx.
    unfold st1, run_effects. rewrite Hprev. apply effect_status_idem. }
  rewrite Hagain, Deps_eqb_refl. reflexivity.
Qed.

Lemma render_terminates (prev : Deps) (st : AppState) :
  exists st', render 3 prev st = Some st'.
Proof. rewrite render_unfold. eexists. reflexivity. Qed.

Lemma dispatch_unfold (ev : Event) (st : AppState) :
  dispatch ev st =
  if Deps_eqb (deps st) (deps (handle ev st)) then handle ev st
  else run_effects (deps st) (handle ev st).
Proof. unfold dispatch. rewrite render_unfold. reflexivity. Qed.

(** A callback that leaves [isMicOn], [status] and [script] alone causes no
    effect to run. *)
Lemma dispatch_same_deps (ev : Event) (st : AppState) :
  deps (handle ev st) = deps st -> dispatch ev st = handle ev st.
Proof.
  intro H. rewrite dispatch_unfold, H, Deps_eqb_refl. reflexivity.
Qed.

(** No effect reacts to the status SPEAKING, nor to a change of status alone
    that leads to CONNECTING, IDLE or ERROR. *)
Lemma dispatch_status_only (ev : Event) (st : AppState) :
  isMicOn (handle ev st) = isMicOn st ->
  effect_status (handle ev st) = handle ev st ->
  dispatch ev st = handle ev st.
Proof.
  intros Hm He. rewrite dispatch_unfold.
  destruct (Deps_eqb _ _) eqn:Hd; [reflexivity|].
  unfold run_effects. rewrite Hd.
  replace (fst (fst (deps st))) with (isMicOn st) by reflexivity.
  rewrite Hm, Bool.eqb_reflx. exact He.
Qed.

(** ** The microphone toggle *)

Ltac break_state st :=
  destruct st as [vs vsc vg vm ve vi vo vses vn vsrcs vms vsp vmr vcs vc vt];
  cbn [status script scriptGen isMicOn errorMsg sessionRef nextStartTimeRef
       sourcesRef isMicOnRef connScript created trace] in *.

Ltac eval_dispatch :=
  rewrite dispatch_unfold;
  cbn -[Qmax Qplus]; rewrite ?Nat.eqb_refl, ?Bool.eqb_reflx; cbn -[Qmax Qplus].



(** ** Inbound messages *)

Lemma effect_status_speaking (st : AppState) :
  status st = SPEAKING -> effect_status st = st.
Proof.
  break_state st. intros ->. unfold effect_status. cbn.
  rewrite !andb_false_r. reflexivity.
Qed.

Lemma onmessage_isMicOn (message : LiveServerMessage) (now : Q) (st : AppState) :
  isMicOn (fst (onmessage message now st)) = isMicOn st.
Proof.
  unfold onmessage. destruct message as [[p|] i]; cbn [inlineData interrupted];
    try destruct (truthy (Some p)); try destruct (decodeAudio p);
    destruct i; reflexivity.
Qed.

(** No effect follows [onmessage]: it changes no state value but the status,
    and only to SPEAKING. *)
Lemma dispatch_message (message : LiveServerMessage) (now : Q) (st : AppState) :
  dispatch (MessageReceived message now) st = fst (onmessage message now st).
Proof.
  destruct (truthy (inlineData message)) eqn:Ht.
  - apply dispatch_status_only; cbn [handle].
    + apply onmessage_isMicOn.
    + apply effect_status_speaking. unfold onmessage.
      destruct message as [[p|] i]; cbn [inlineData interrupted] in *;
        [|discriminate Ht].
      rewrite Ht. destruct (decodeAudio p), i; reflexivity.
  - apply dispatch_same_deps. cbn [handle]. unfold onmessage.
    destruct message as [[p|] i]; cbn [inlineData interrupted] in *;
      [rewrite Ht|]; destruct i; reflexivity.
Qed.

Lemma onmessage_silent (message : LiveServerMessage) (now : Q) (st : AppState) :
  truthy (inlineData message) = false ->
  fst (onmessage message now st) =
  if interrupted message then onInterrupted st else st.
Proof.
  unfold onmessage. destruct message as [[p|] i]; cbn [inlineData interrupted].
  - intros ->. reflexivity.
  - reflexivity.
Qed.

Lemma onmessage_malformed (message : LiveServerMessage) (now : Q) (st : AppState) :
  malformed message ->
  onmessage message now st =
  (setNextStartTime (Qmax (nextStartTimeRef st) now) (setStatus SPEAKING st),
   Rejected).
Proof.
  intros (p & Hp & Ht & Hd). unfold onmessage. rewrite Hp, Ht, Hd. reflexivity.
Qed.

Lemma onmessage_decodes (message : LiveServerMessage) (audioBuffer : AudioBuffer)
    (now : Q) (st : AppState) :
  decodes message audioBuffer ->
  onmessage message now st =
  (if interrupted message then onInterrupted (enqueued audioBuffer now st)
   else enqueued audioBuffer now st, Fulfilled).
Proof.
  intros (p & Hp & Ht & Hd). unfold onmessage. rewrite Hp, Ht, Hd.
  destruct (interrupted message); reflexivity.
Qed.

(** C3 (as amended). An inbound message with an audio payload sets the status
    to SPEAKING whatever the status was, ERROR included; a message without an
    audio payload leaves the status as it was. *)
Theorem inbound_audio_sets_speaking (message : LiveServerMessage) (now : Q)
    (st : AppState) :
  (truthy (inlineData message) = true ->
   status (dispatch (MessageReceived message now) st) = SPEAKING) /\
  (truthy (inlineData message) = false ->
   status (dispatch (MessageReceived message now) st) = status st).
Proof.
  rewrite dispatch_message. split; intro H.
  - unfold onmessage. destruct message as [[p|] i]; cbn [inlineData interrupted] in *.
    + rewrite H. destruct (decodeAudio p), i; reflexivity.
    + discriminate H.
  - rewrite onmessage_silent by exact H.
    destruct (interrupted message); reflexivity.
Qed.

(** C8 (as amended). A message whose audio does not decode schedules nothing:
    no source is created, started or added to the pending set, no error
    message is set and the status does not become ERROR. The status does
    change: it is SPEAKING afterwards, since it is set before decoding. The
    cursor becomes [max(nextStartTime, now)], and a chunk that decodes and
    arrives at a later clock time is started exactly when it would have been
    started had the malformed message not arrived. *)
Theorem malformed_payload_drops_chunk (bad : LiveServerMessage) (now : Q)
    (st : AppState) :
  malformed bad ->
  let st' := dispatch (MessageReceived bad now) st in
  status st' = SPEAKING /\
  errorMsg st' = errorMsg st /\
  sourcesRef st' = sourcesRef st /\
  created st' = created st /\
  trace st' = trace st /\
  nextStartTimeRef st' = Qmax (nextStartTimeRef st) now /\
  forall good audioBuffer now',
    decodes good audioBuffer -> interrupted good = false -> now <= now' ->
    exists start,
      trace (dispatch (MessageReceived good now') st') =
      trace st ++ [SourceStart (created st) start (duration audioBuffer)] /\
      start == Qmax (nextStartTimeRef st) now' /\
      trace (dispatch (MessageReceived good now') st) =
      trace st ++ [SourceStart (created st) (Qmax (nextStartTimeRef st) now')
                     (duration audioBuffer)].
Proof.
  intros Hbad st'. subst st'.
  rewrite dispatch_message, onmessage_malformed by exact Hbad.
  cbn [fst]. repeat split.
  intros good audioBuffer now' Hgood Hi Hle.
  rewrite !dispatch_message, !(onmessage_decodes _ _ _ _ Hgood), Hi. cbn [fst].
  eexists. split; [reflexivity|]. split; [|reflexivity].
  cbn [nextStartTimeRef setNextStartTime].
  rewrite <- Q.max_assoc. rewrite (Q.max_r now now') by exact Hle. reflexivity.
Qed.

(** ** What rendering leaves alone *)

Lemma starts_app (l1 l2 : list IO) : starts (l1 ++ l2) = starts l1 ++ starts l2.
Proof.
  induction l1 as [|a l1 IH]; [reflexivity|].
  destruct a; cbn [starts app]; rewrite IH; reflexivity.
Qed.

Lemma audioSends_app (l1 l2 : list IO) :
  audioSends (l1 ++ l2) = audioSends l1 ++ audioSends l2.
Proof.
  induction l1 as [|a l1 IH]; [reflexivity|].
  destruct a; cbn [audioSends app]; rewrite IH; try reflexivity.
  destruct (String.eqb mimeType _); reflexivity.
Qed.

Lemma starts_stops (l : list Source) : starts (map SourceStop l) = [].
Proof. induction l as [|a l IH]; [reflexivity|exact IH]. Qed.

(** The second effect touches neither the scheduler nor the microphone ref,
    starts no source and sends no frame. *)
Lemma effect_status_playback (st : AppState) :
  playback (effect_status st) = playback st.
Proof.
  break_state st. unfold playback.
  destruct vm, vs, vses, vsc; cbn; rewrite ?starts_app, ?audioSends_app;
    cbn; rewrite ?app_nil_r; reflexivity.
Qed.

Lemma effect_status_speaking_iff (st : AppState) :
  status (effect_status st) = SPEAKING <-> status st = SPEAKING.
Proof.
  break_state st.
  destruct vm, vs, vses, vsc; cbn; split; intro H; try discriminate H; reflexivity.
Qed.

Lemma effect_micRef_status (st : AppState) :
  status (effect_micRef st) = status st.
Proof. reflexivity. Qed.

Lemma run_effects_speaking_iff (prev : Deps) (st : AppState) :
  status (run_effects prev st) = SPEAKING <-> status st = SPEAKING.
Proof.
  unfold run_effects.
  destruct (Deps_eqb prev (deps st)), (Bool.eqb (fst (fst prev)) (isMicOn st));
    rewrite ?effect_status_speaking_iff, ?effect_micRef_status; reflexivity.
Qed.

Lemma run_effects_scheduler (prev : Deps) (st : AppState) :
  nextStartTimeRef (run_effects prev st) = nextStartTimeRef st /\
  sourcesRef (run_effects prev st) = sourcesRef st /\
  created (run_effects prev st) = created st /\
  starts (trace (run_effects prev st)) = starts (trace st) /\
  audioSends (trace (run_effects prev st)) = audioSends (trace st).
Proof.
  unfold run_effects.
  set (st1 := if Bool.eqb (fst (fst prev)) (isMicOn st) then st else effect_micRef st).
  assert (H1 : nextStartTimeRef st1 = nextStartTimeRef st /\
               sourcesRef st1 = sourcesRef st /\ created st1 = created st /\
               trace st1 = trace st).
  { subst st1. destruct (Bool.eqb _ _); repeat split; reflexivity. }
  destruct H1 as (Hn & Hs & Hc & Ht).
  destruct (Deps_eqb prev (deps st)).
  - rewrite Hn, Hs, Hc, Ht. repeat split; reflexivity.
  - pose proof (effect_status_playback st1) as H. unfold playback in H.
    injection H as E1 E2 E3 _ E5 E6.
    rewrite E1, E2, E3, E5, E6, Hn, Hs, Hc, Ht. repeat split; reflexivity.
Qed.

(** Rendering after a callback keeps what the callback did to the scheduler. *)
Lemma dispatch_scheduler (ev : Event) (st : AppState) :
  nextStartTimeRef (dispatch ev st) = nextStartTimeRef (handle ev st) /\
  sourcesRef (dispatch ev st) = sourcesRef (handle ev st) /\
  created (dispatch ev st) = created (handle ev st) /\
  starts (trace (dispatch ev st)) = starts (trace (handle ev st)) /\
  audioSends (trace (dispatch ev st)) = audioSends (trace (handle ev st)).
Proof.
  rewrite dispatch_unfold. destruct (Deps_eqb _ _).
  - repeat split; reflexivity.
  - apply run_effects_scheduler.
Qed.

Lemma dispatch_speaking_iff (ev : Event) (st : AppState) :
  status (dispatch ev st) = SPEAKING <-> status (handle ev st) = SPEAKING.
Proof.
  rewrite dispatch_unfold. destruct (Deps_eqb _ _).
  - reflexivity.
  - apply run_effects_speaking_iff.
Qed.

(** ** The playback scheduler *)

Lemma handle_quiet (ev : Event) (st : AppState) :
  quiet ev = true ->
  nextStartTimeRef (handle ev st) = nextStartTimeRef st /\
  created (handle ev st) = created st /\
  starts (trace (handle ev st)) = starts (trace st).
Proof.
  intro Hq. destruct ev; cbn [handle].
  - unfold scriptLoaded, setScript. destruct (script st); repeat split; reflexivity.
  - unfold resetClicked, setScript. break_state st.
    destruct vsc, vses; cbn;
      rewrite ?starts_app, ?app_nil_r; repeat split; reflexivity.
  - unfold toggleMic. destruct (status st); repeat split; reflexivity.
  - unfold onopen. cbn. destruct (connScript st) as [[[] [d|] tc nm]|]; cbn;
      try (repeat split; reflexivity).
    destruct (negb (String.eqb d "")); cbn; rewrite ?starts_app, ?app_nil_r;
      repeat split; reflexivity.
  - cbn [quiet] in Hq. apply andb_prop in Hq as [Ha Hi].
    apply negb_true_iff in Ha, Hi.
    rewrite onmessage_silent by exact Ha. rewrite Hi. repeat split; reflexivity.
  - unfold onended. cbn. destruct (Nat.eqb _ 0); repeat split; reflexivity.
  - repeat split; reflexivity.
  - repeat split; reflexivity.
  - cbn. rewrite starts_app, app_nil_r. repeat split; reflexivity.
  - repeat split; reflexivity.
  - repeat split; reflexivity.
  - unfold onaudioprocess. destruct (isMicOnRef st); cbn;
      rewrite ?starts_app, ?app_nil_r; repeat split; reflexivity.
Qed.

Lemma run_cons (ev : Event) (evs : list Event) (st : AppState) :
  run (ev :: evs) st = run evs (dispatch ev st).
Proof. reflexivity. Qed.

Lemma run_app (evs1 evs2 : list Event) (st : AppState) :
  run (evs1 ++ evs2) st = run evs2 (run evs1 st).
Proof. unfold run. apply fold_left_app. Qed.

(** Between two enqueues the cursor stands still and no source is started. *)
Lemma run_quiet (evs : list Event) (st : AppState) :
  forallb quiet evs = true ->
  nextStartTimeRef (run evs st) = nextStartTimeRef st /\
  created (run evs st) = created st /\
  starts (trace (run evs st)) = starts (trace st).
Proof.
  revert st. induction evs as [|ev evs IH]; intros st Hq.
  - repeat split; reflexivity.
  - cbn [forallb] in Hq. apply andb_prop in Hq as [Hev Hevs].
    rewrite run_cons.
    destruct (IH (dispatch ev st) Hevs) as (Hn & Hc & Hs).
    destruct (dispatch_scheduler ev st) as (Dn & _ & Dc & Ds & _).
    destruct (handle_quiet ev st Hev) as (Qn & Qc & Qs).
    rewrite Hn, Hc, Hs, Dn, Dc, Ds, Qn, Qc, Qs. repeat split; reflexivity.
Qed.

(** C1 (as amended). [enqueue] sets the cursor to [max(nextStartTime, now)],
    starts the chunk exactly there, and advances the cursor by the chunk's
    duration. For two chunks enqueued one after the other with no audio
    message and no flush in between, the second starts at
    [max(start1 + d1, now2)]: never before the first ends (no overlap),
    exactly when the first ends if it arrives by then (no gap), and at its
    arrival time if it arrives later (a gap). *)
Theorem enqueue_schedule (st : AppState) (m1 m2 : LiveServerMessage)
    (b1 b2 : AudioBuffer) (now1 now2 : Q) (evs : list Event) :
  decodes m1 b1 -> interrupted m1 = false -> decodes m2 b2 ->
  forallb quiet evs = true ->
  let st1 := dispatch (MessageReceived m1 now1) st in
  let st2 := dispatch (MessageReceived m2 now2) (run evs st1) in
  let start1 := Qmax (nextStartTimeRef st) now1 in
  let start2 := Qmax (start1 + duration b1) now2 in
  trace st1 = trace st ++ [SourceStart (created st) start1 (duration b1)] /\
  nextStartTimeRef st1 = start1 + duration b1 /\
  sourcesRef st1 = set_add (created st) (sourcesRef st) /\
  starts (trace st2) =
    starts (trace st) ++ [(start1, duration b1); (start2, duration b2)] /\
  start1 + duration b1 <= start2 /\
  (now2 <= start1 + duration b1 -> start2 == start1 + duration b1) /\
  (start1 + duration b1 < now2 -> start2 == now2).
Proof.
  intros H1 Hi1 H2 Hq st1 st2 start1 start2.
  assert (E1 : st1 = enqueued b1 now1 st).
  { subst st1. rewrite dispatch_message, (onmessage_decodes _ _ _ _ H1), Hi1.
    reflexivity. }
  destruct (run_quiet evs st1 Hq) as (Hn & Hc & Hs).
  split; [rewrite E1; reflexivity|].
  split; [rewrite E1; reflexivity|].
  split; [rewrite E1; reflexivity|].
  split.
  - subst st2. rewrite dispatch_message, (onmessage_decodes _ _ _ _ H2). cbn [fst].
    assert (Hend : starts (trace (enqueued b2 now2 (run evs st1))) =
                   starts (trace (run evs st1)) ++ [(start2, duration b2)]).
    { unfold enqueued. cbn [trace setSources setNextStartTime io createSource
                            setStatus nextStartTimeRef].
      rewrite starts_app, Hn, E1. reflexivity. }
    assert (Hall : starts (trace (run evs st1)) =
                   starts (trace st) ++ [(start1, duration b1)]).
    { rewrite Hs, E1. unfold enqueued.
      cbn [trace setSources setNextStartTime io createSource setStatus].
      rewrite starts_app. reflexivity. }
    destruct (interrupted m2).
    + unfold onInterrupted.
      cbn [trace setSources setNextStartTime io sourcesRef].
      rewrite starts_app, starts_stops, app_nil_r, Hend, Hall, <- app_assoc.
      reflexivity.
    + rewrite Hend, Hall, <- app_assoc. reflexivity.
  - split; [apply Q.le_max_l|].
    split; intro H.
    + apply Q.max_l. exact H.
    + apply Q.max_r. apply Qlt_le_weak. exact H.
Qed.

(** ** Status and the pending set *)

Lemma set_add_nonempty (s : Source) (l : list Source) : set_add s l <> [].
Proof.
  unfold set_add. destruct (existsb (Nat.eqb s) l) eqn:He.
  - destruct l; [discriminate He|discriminate].
  - destruct l; discriminate.
Qed.

Lemma set_delete_nonempty (s : Source) (l : list Source) :
  set_delete s l <> [] -> l <> [].
Proof. destruct l; [intro H; exact H|discriminate]. Qed.

Lemma onended_sources (source : Source) (st : AppState) :
  sourcesRef (onended source st) = set_delete source (sourcesRef st).
Proof. unfold onended. cbn. destruct (Nat.eqb _ 0); reflexivity. Qed.

Lemma onended_status (source : Source) (st : AppState) :
  status (onended source st) =
  match set_delete source (sourcesRef st) with
  | [] => if isMicOnRef st then LISTENING else READY
  | _ :: _ => status st
  end.
Proof.
  unfold onended. cbn. destruct (set_delete source (sourcesRef st)); reflexivity.
Qed.

(** C2 (as amended). After an enqueue the status is SPEAKING and the pending
    set is not empty. A source completion keeps "SPEAKING if and only if
    sources are pending". A flush empties the pending set and leaves the
    status as it was, so after a flush of pending sources the status is still
    SPEAKING while nothing is pending; the completion callback of a stopped
    source, run while nothing is pending, then takes the status out of
    SPEAKING. *)
Theorem status_and_pending (st : AppState) :
  (forall message audioBuffer now,
     decodes message audioBuffer -> interrupted message = false ->
     let st' := dispatch (MessageReceived message now) st in
     status st' = SPEAKING /\ sourcesRef st' <> []) /\
  (forall source,
     speaking_iff_pending st ->
     speaking_iff_pending (dispatch (SourceEnded source) st)) /\
  (forall message now,
     truthy (inlineData message) = false -> interrupted message = true ->
     let st' := dispatch (MessageReceived message now) st in
     sourcesRef st' = [] /\ status st' = status st /\
     forall source,
       sourcesRef (dispatch (SourceEnded source) st') = [] /\
       status (dispatch (SourceEnded source) st') <> SPEAKING).
Proof.
  split; [|split].
  - intros message audioBuffer now Hd Hi st'. subst st'.
    rewrite dispatch_message, (onmessage_decodes _ _ _ _ Hd), Hi. cbn [fst].
    split; [reflexivity|]. unfold enqueued. cbn [sourcesRef setSources].
    apply set_add_nonempty.
  - intros source Hinv. unfold speaking_iff_pending in *.
    destruct (dispatch_scheduler (SourceEnded source) st) as (_ & Hs & _).
    rewrite dispatch_speaking_iff, Hs. cbn [handle].
    rewrite onended_sources, onended_status.
    destruct (set_delete source (sourcesRef st)) as [|a l] eqn:Hdel.
    + split; intro H; [|contradiction].
      destruct (isMicOnRef st); discriminate H.
    + split; intro H; [discriminate|].
      apply Hinv. apply (set_delete_nonempty source). rewrite Hdel. discriminate.
  - intros message now Ha Hi st'.
    assert (E : st' = onInterrupted st).
    { subst st'. rewrite dispatch_message, onmessage_silent, Hi by exact Ha.
      reflexivity. }
    rewrite E. split; [reflexivity|]. split; [reflexivity|].
    intro source.
    destruct (dispatch_scheduler (SourceEnded source) (onInterrupted st))
      as (_ & Hs & _).
    rewrite Hs, dispatch_speaking_iff. cbn [handle].
    rewrite onended_sources, onended_status. cbn.
    split; [reflexivity|]. destruct (isMicOnRef st); discriminate.
Qed.

(** C4 (as amended). An interruption stops every pending source, in insertion
    order, empties the pending set and resets the cursor to 0, so that a
    chunk enqueued afterwards at clock time [now >= 0] starts at [now], not
    in the past. The interruption itself leaves the status as it was. The
    status becomes LISTENING if the microphone is on, else READY, when the
    completion callback of a source next runs while nothing is pending. *)
Theorem interruption_flushes (st : AppState) (message : LiveServerMessage)
    (now : Q) :
  truthy (inlineData message) = false -> interrupted message = true ->
  let st' := dispatch (MessageReceived message now) st in
  trace st' = trace st ++ map SourceStop (sourcesRef st) /\
  sourcesRef st' = [] /\
  nextStartTimeRef st' = 0 /\
  status st' = status st /\
  (forall good audioBuffer now',
     decodes good audioBuffer -> interrupted good = false -> 0 <= now' ->
     exists start,
       trace (dispatch (MessageReceived good now') st') =
       trace st' ++ [SourceStart (created st') start (duration audioBuffer)] /\
       start == now') /\
  (forall source,
     isMicOn st = isMicOnRef st ->
     status (dispatch (SourceEnded source) st') =
     if isMicOnRef st then LISTENING else READY).
Proof.
  intros Ha Hi st'.
  assert (E : st' = onInterrupted st).
  { subst st'. rewrite dispatch_message, onmessage_silent, Hi by exact Ha.
    reflexivity. }
  rewrite E. repeat split.
  - intros good audioBuffer now' Hd Hgi Hnow.
    rewrite dispatch_message, (onmessage_decodes _ _ _ _ Hd), Hgi. cbn [fst].
    eexists. split; [reflexivity|].
    cbn [nextStartTimeRef onInterrupted setNextStartTime].
    apply Q.max_r. exact Hnow.
  - intros source Hsync. break_state st. subst vm.
    destruct vmr, vs, vses, vsc; eval_dispatch; reflexivity.
Qed.

(** ** The capture pipeline *)







(** ** connectToGemini without a script *)

(** C7 (as amended). Called with no script, [connectToGemini] returns at
    once: its promise is fulfilled, not rejected, and the state is the one it
    was called in, so no error is raised or shown, the status does not become
    CONNECTING, and nothing is opened or requested. Called with a script,
    whatever its content, it moves to CONNECTING, clears the error message
    and opens the channel. *)
Theorem connect_without_script (st : AppState) :
  (script st = None -> connectToGemini st = (st, Fulfilled)) /\
  (forall sc, script st = Some sc ->
     snd (connectToGemini st) = Pending /\
     status (fst (connectToGemini st)) = CONNECTING /\
     errorMsg (fst (connectToGemini st)) = None /\
     trace (fst (connectToGemini st)) =
     trace st ++ [NewAudioContext 16000; NewAudioContext 24000; LiveConnect sc]).
Proof.
  unfold connectToGemini. split.
  - intros ->. reflexivity.
  - intros sc ->. cbn. rewrite <- app_assoc. repeat split; reflexivity.
Qed.

(** * Further properties of the component *)

(** ** Rendering and the effects *)

Lemma render_settled (fuel : nat) (st : AppState) :
  render fuel (deps st) st = Some st.
Proof. destruct fuel; cbn [render]; rewrite Deps_eqb_refl; reflexivity. Qed.

(** X1. Rendering never loops: given fuel for two renders or more, [render]
    returns, after at most one run of the effects; when the effects ran, the
    state it returns is one that the status effect leaves unchanged. *)
Theorem render_settles (fuel : nat) (prev : Deps) (st : AppState) :
  let st' := if Deps_eqb prev (deps st) then st else run_effects prev st in
  render (S (S fuel)) prev st = Some st' /\
  (Deps_eqb prev (deps st) = false -> effect_status st' = st').
Proof.
  cbv zeta. split.
  - cbn [render].
    destruct (Deps_eqb prev (deps st)) eqn:Hprev; [reflexivity|].
    set (st1 := run_effects prev st).
    destruct (Deps_eqb (deps st) (deps st1)) eqn:H1; [reflexivity|].
    assert (Hagain : run_effects (deps st) st1 = st1).
    { unfold run_effects at 1. rewrite H1.
      replace (fst (fst (deps st))) with (isMicOn st) by reflexivity.
      unfold st1 at 1. rewrite run_effects_isMicOn, Bool.eqb_reflx.
      unfold st1, run_effects. rewrite Hprev. apply effect_status_idem. }
    rewrite Hagain. apply render_settled.
  - intro Hprev. unfold run_effects. rewrite Hprev. apply effect_status_idem.
Qed.

Lemma handle_isMicOnRef (ev : Event) (st : AppState) :
  isMicOnRef (handle ev st) = isMicOnRef st.
Proof.
  destruct ev; cbn [handle].
  - unfold scriptLoaded, setScript. destruct (script st); reflexivity.
  - unfold resetClicked, setScript. break_state st. destruct vsc, vses; reflexivity.
  - unfold toggleMic. destruct (status st); reflexivity.
  - unfold onopen. cbn. destruct (connScript st) as [[[] [d|] tc nm]|]; cbn;
      try reflexivity. destruct (negb (String.eqb d "")); reflexivity.
  - unfold onmessage. destruct message as [[p|] i]; cbn [inlineData interrupted];
      try destruct (truthy (Some p)); try destruct (decodeAudio p);
      destruct i; reflexivity.
  - unfold onended. cbn. destruct (Nat.eqb _ 0); reflexivity.
  - reflexivity.
  - reflexivity.
  - reflexivity.
  - reflexivity.
  - reflexivity.
  - unfold onaudioprocess. destruct (isMicOnRef st) eqn:E; exact E.
Qed.

Lemma effect_status_isMicOnRef (st : AppState) :
  isMicOnRef (effect_status st) = isMicOnRef st.
Proof.
  pose proof (effect_status_playback st) as H. unfold playback in H.
  injection H as _ _ _ H _ _. exact H.
Qed.

Lemma Deps_eqb_isMicOn (st st' : AppState) :
  Deps_eqb (deps st) (deps st') = true -> isMicOn st' = isMicOn st.
Proof.
  intro H. apply Deps_eqb_eq in H. unfold deps in H. now injection H as -> _ _.
Qed.

(** One event keeps the microphone ref equal to the microphone state. *)
Lemma dispatch_mic_sync (ev : Event) (st : AppState) :
  isMicOnRef st = isMicOn st ->
  isMicOnRef (dispatch ev st) = isMicOn (dispatch ev st).
Proof.
  intro Hsync. rewrite dispatch_unfold.
  destruct (Deps_eqb (deps st) (deps (handle ev st))) eqn:Hd.
  - rewrite handle_isMicOnRef, (Deps_eqb_isMicOn _ _ Hd). exact Hsync.
  - rewrite run_effects_isMicOn. unfold run_effects. rewrite Hd.
    rewrite effect_status_isMicOnRef.
    replace (fst (fst (deps st))) with (isMicOn st) by reflexivity.
    destruct (Bool.eqb (isMicOn st) (isMicOn (handle ev st))) eqn:Hm.
    + apply Bool.eqb_prop in Hm. rewrite handle_isMicOnRef, <- Hm. exact Hsync.
    + reflexivity.
Qed.

(** X2. Whatever happens to a mounted component, once the renders caused by
    an event are done the ref read by the capture callback,
    [isMicOnRef.current], equals the state [isMicOn]. *)
Theorem mic_ref_synced (evs : list Event) :
  isMicOnRef (run evs initial) = isMicOn (run evs initial).
Proof.
  assert (H : forall st, isMicOnRef st = isMicOn st ->
                         isMicOnRef (run evs st) = isMicOn (run evs st)).
  { induction evs as [|ev evs IH]; intros st Hsync; [exact Hsync|].
    rewrite run_cons. apply IH. apply dispatch_mic_sync. exact Hsync. }
  apply H. reflexivity.
Qed.

Lemma effect_status_listening (st : AppState) :
  status (effect_status st) = LISTENING -> isMicOn (effect_status st) = true.
Proof.
  break_state st. destruct vm, vs, vses, vsc; cbn; intro H;
    try discriminate H; reflexivity.
Qed.

Lemma dispatch_listening (ev : Event) (st : AppState) :
  (status st = LISTENING -> isMicOn st = true) ->
  status (dispatch ev st) = LISTENING -> isMicOn (dispatch ev st) = true.
Proof.
  intro Hinv. rewrite dispatch_unfold.
  destruct (Deps_eqb (deps st) (deps (handle ev st))) eqn:Hd.
  - apply Deps_eqb_eq in Hd. unfold deps in Hd. injection Hd as Hm Hs _.
    rewrite <- Hm, <- Hs. exact Hinv.
  - unfold run_effects. rewrite Hd. apply effect_status_listening.
Qed.

(** X3. In every state a mounted component reaches, the status is LISTENING
    only while the microphone is on. *)
Theorem listening_only_with_mic (evs : list Event) :
  status (run evs initial) = LISTENING -> isMicOn (run evs initial) = true.
Proof.
  assert (H : forall st, (status st = LISTENING -> isMicOn st = true) ->
                         status (run evs st) = LISTENING ->
                         isMicOn (run evs st) = true).
  { induction evs as [|ev evs IH]; intros st Hinv; [exact Hinv|].
    rewrite run_cons. apply IH. apply dispatch_listening. exact Hinv. }
  apply H. intro Hl. discriminate Hl.
Qed.

(** ** Reset, errors and the end of a session *)

Lemma eqb_succ (n : nat) : Nat.eqb n (S n) = false.
Proof. apply Nat.eqb_neq. apply Nat.neq_succ_diag_r. Qed.

Ltac eval_all :=
  rewrite ?dispatch_unfold; unfold run_effects;
  repeat (progress (cbn -[Qmax Qplus];
                    rewrite ?Nat.eqb_refl, ?Bool.eqb_reflx, ?eqb_succ, ?app_nil_r)).

(** X4. The reset button, pressed while the ref and the microphone state
    agree, ends at status IDLE with no script and the microphone off, and asks
    the session to close when one is held. It does not flush playback (the
    pending sources and the cursor stay), does not release the session ref
    (only [onclose] does) and does not clear the error message. Afterwards a
    microphone toggle and a capture frame both change nothing. *)
Theorem reset_returns_to_idle (st : AppState) :
  isMicOnRef st = isMicOn st ->
  let st' := dispatch ResetClicked st in
  status st' = IDLE /\ script st' = None /\
  isMicOn st' = false /\ isMicOnRef st' = false /\
  trace st' = trace st ++ (if sessionRef st then [SessionClose] else []) /\
  sessionRef st' = sessionRef st /\
  sourcesRef st' = sourcesRef st /\
  nextStartTimeRef st' = nextStartTimeRef st /\
  errorMsg st' = errorMsg st /\
  dispatch MicClicked st' = st' /\
  forall inputData, dispatch (AudioProcess inputData) st' = st'.
Proof.
  intros Hsync st'. subst st'. break_state st. subst vmr.
  destruct vm, vs, vses, vsc; eval_all; repeat split;
    intro inputData; eval_all; reflexivity.
Qed.

(** X5. [onerror], [onclose] and the catch block of [connectToGemini] stop
    nothing: no source is stopped, the pending set, the cursor and the
    microphone state and ref are as before, and nothing is sent or closed.
    Since the status is then IDLE or ERROR, a microphone toggle changes
    nothing; so when the microphone was on, it stays on and every later
    capture frame is still converted and sent. *)
Theorem session_end_keeps_capture (ev : Event) (st : AppState) :
  ends_session ev = true ->
  let st' := dispatch ev st in
  (status st' = IDLE \/ status st' = ERROR) /\
  isMicOn st' = isMicOn st /\ isMicOnRef st' = isMicOnRef st /\
  sourcesRef st' = sourcesRef st /\
  nextStartTimeRef st' = nextStartTimeRef st /\
  trace st' = trace st /\
  dispatch MicClicked st' = st' /\
  (isMicOnRef st = true ->
   forall inputData,
     audioSends (trace (dispatch (AudioProcess inputData) st')) =
     audioSends (trace st) ++ [encode (floatToPCM16 inputData)]).
Proof.
  intros Hev st'. subst st'.
  destruct ev; try discriminate Hev; break_state st;
    destruct vm, vs, vses, vsc; eval_all;
    (repeat split; [(left; reflexivity) || (right; reflexivity)|]);
    intros ->; intro inputData; eval_all;
    rewrite audioSends_app; reflexivity.
Qed.

(** ** Opening a connection *)

Lemma connects_app (l1 l2 : list IO) :
  connects (l1 ++ l2) = (connects l1 + connects l2)%nat.
Proof.
  induction l1 as [|a l1 IH]; [reflexivity|].
  destruct a; cbn [connects app]; rewrite IH; reflexivity.
Qed.

Lemma connects_stops (l : list Source) : connects (map SourceStop l) = O.
Proof. induction l as [|a l IH]; [reflexivity|exact IH]. Qed.

(** No callback opens a connection itself: only the status effect does. *)
Lemma handle_connects (ev : Event) (st : AppState) :
  connects (trace (handle ev st)) = connects (trace st).
Proof.
  destruct ev; cbn [handle].
  - unfold scriptLoaded, setScript. destruct (script st); reflexivity.
  - unfold resetClicked, setScript. break_state st.
    destruct vsc, vses; cbn; rewrite ?connects_app; cbn; lia.
  - unfold toggleMic. destruct (status st); reflexivity.
  - unfold onopen. cbn. destruct (connScript st) as [[[] [d|] tc nm]|]; cbn;
      try reflexivity.
    destruct (negb (String.eqb d "")); cbn; rewrite ?connects_app; cbn; lia.
  - unfold onmessage, onInterrupted.
    destruct message as [[p|] i]; cbn [inlineData interrupted];
      try destruct (truthy (Some p)); try destruct (decodeAudio p);
      destruct i; cbn; rewrite ?connects_app, ?connects_stops; cbn; lia.
  - unfold onended. cbn. destruct (Nat.eqb _ 0); reflexivity.
  - reflexivity.
  - reflexivity.
  - cbn. rewrite connects_app. cbn. lia.
  - reflexivity.
  - reflexivity.
  - unfold onaudioprocess. destruct (isMicOnRef st); cbn;
      rewrite ?connects_app; cbn; lia.
Qed.

Lemma effect_status_connects (st : AppState) :
  connects (trace (effect_status st)) <> connects (trace st) ->
  connects (trace (effect_status st)) = S (connects (trace st)) /\
  status (effect_status st) = CONNECTING /\
  isMicOn (effect_status st) = true /\
  sessionRef (effect_status st) = false /\
  script (effect_status st) <> None.
Proof.
  break_state st.
  destruct vm, vs, vses, vsc; cbn; rewrite ?connects_app; cbn;
    intro H; try (exfalso; apply H; reflexivity);
    repeat split; try lia; discriminate.
Qed.

(** X6. An event opens at most one connection, and only through the status
    effect: when [ai.live.connect] is called, the microphone is on, no session
    is held, a script is present and the status is CONNECTING afterwards. *)
Theorem connect_only_when_needed (ev : Event) (st : AppState) :
  connects (trace (dispatch ev st)) <> connects (trace st) ->
  let st' := dispatch ev st in
  connects (trace st') = S (connects (trace st)) /\
  status st' = CONNECTING /\
  isMicOn st' = true /\
  sessionRef st' = false /\
  script st' <> None.
Proof.
  cbv zeta. rewrite dispatch_unfold.
  destruct (Deps_eqb (deps st) (deps (handle ev st))) eqn:Hd.
  - rewrite handle_connects. intro H. exfalso. apply H. reflexivity.
  - unfold run_effects. rewrite Hd.
    set (st1 := if Bool.eqb (fst (fst (deps st))) (isMicOn (handle ev st))
                then handle ev st else effect_micRef (handle ev st)).
    assert (Ht : connects (trace st1) = connects (trace st)).
    { subst st1. destruct (Bool.eqb _ _); cbn [trace effect_micRef setIsMicOnRef];
        apply handle_connects. }
    rewrite <- Ht. apply effect_status_connects.
Qed.


(** ** The pending set and the cursor over a whole run *)

Lemma set_add_NoDup (s : Source) (l : list Source) :
  NoDup l -> NoDup (set_add s l).
Proof.
  intro Hl. unfold set_add. destruct (existsb (Nat.eqb s) l) eqn:He; [exact Hl|].
  apply NoDup_app; [exact Hl|repeat constructor; intros []|].
  intros x Hx [Hs|[]]. subst x.
  assert (Hex : existsb (Nat.eqb s) l = true).
  { apply existsb_exists. exists s. split; [exact Hx|apply Nat.eqb_refl]. }
  rewrite He in Hex. discriminate Hex.
Qed.

Lemma set_add_Forall (P : Source -> Prop) (s : Source) (l : list Source) :
  Forall P l -> P s -> Forall P (set_add s l).
Proof.
  intros Hl Hs. unfold set_add. destruct (existsb (Nat.eqb s) l); [exact Hl|].
  apply Forall_app. split; [exact Hl|]. constructor; [exact Hs|constructor].
Qed.

Lemma set_add_fresh (s : Source) (l : list Source) :
  ~ In s l -> set_add s l = l ++ [s].
Proof.
  intro Hn. unfold set_add. destruct (existsb (Nat.eqb s) l) eqn:He; [|reflexivity].
  apply existsb_exists in He as (x & Hx & Hsx). apply Nat.eqb_eq in Hsx.
  subst x. contradiction.
Qed.

Lemma pending_fresh_not_in (st : AppState) :
  pending_fresh st -> ~ In (created st) (sourcesRef st).
Proof.
  intros [_ Hlt] Hin. rewrite Forall_forall in Hlt.
  specialize (Hlt _ Hin). lia.
Qed.

Lemma pending_fresh_weaken (l : list Source) (c : nat) :
  Forall (fun s => (s < c)%nat) l -> Forall (fun s => (s < S c)%nat) l.
Proof. apply Forall_impl. intros a Ha. lia. Qed.

Lemma handle_pending_fresh (ev : Event) (st : AppState) :
  pending_fresh st -> pending_fresh (handle ev st).
Proof.
  intros [Hnd Hlt]. unfold pending_fresh.
  destruct ev; cbn [handle].
  - unfold scriptLoaded, setScript. destruct (script st); split; assumption.
  - unfold resetClicked, setScript. break_state st.
    destruct vsc, vses; split; assumption.
  - unfold toggleMic. destruct (status st); split; assumption.
  - unfold onopen. cbn. destruct (connScript st) as [[[] [d|] tc nm]|]; cbn;
      try (split; assumption).
    destruct (negb (String.eqb d "")); split; assumption.
  - unfold onmessage, onInterrupted.
    destruct message as [[p|] i]; cbn [inlineData interrupted];
      try destruct (truthy (Some p)); try destruct (decodeAudio p);
      destruct i; cbn; try (split; assumption);
      try (split; constructor).
    split.
    + apply set_add_NoDup. exact Hnd.
    + apply set_add_Forall; [apply pending_fresh_weaken; exact Hlt|lia].
  - rewrite onended_sources. unfold onended. cbn.
    assert (Hc : forall b : bool,
               created (if b then setStatus (if isMicOnRef st then LISTENING else READY)
                                    (setSources (set_delete source (sourcesRef st)) st)
                        else setSources (set_delete source (sourcesRef st)) st)
               = created st) by (intros []; reflexivity).
    rewrite Hc. unfold set_delete. split.
    + apply NoDup_filter. exact Hnd.
    + rewrite Forall_forall in *. intros x Hx. apply filter_In in Hx as [Hx _].
      apply Hlt. exact Hx.
  - split; assumption.
  - split; assumption.
  - split; assumption.
  - split; assumption.
  - split; assumption.
  - unfold onaudioprocess. destruct (isMicOnRef st); split; assumption.
Qed.

Lemma dispatch_pending_fresh (ev : Event) (st : AppState) :
  pending_fresh st -> pending_fresh (dispatch ev st).
Proof.
  intro H. apply (handle_pending_fresh ev) in H. unfold pending_fresh in *.
  destruct (dispatch_scheduler ev st) as (_ & Hs & Hc & _).
  rewrite Hs, Hc. exact H.
Qed.

(** X8. In every state a mounted component reaches, no source is pending
    twice and every pending source is one that was created; so an enqueue
    always adds exactly one new source, at the end of the pending set. *)
Theorem pending_sources_fresh (evs : list Event) :
  let st := run evs initial in
  pending_fresh st /\
  forall message audioBuffer now,
    decodes message audioBuffer -> interrupted message = false ->
    ~ In (created st) (sourcesRef st) /\
    sourcesRef (dispatch (MessageReceived message now) st) =
    sourcesRef st ++ [created st].
Proof.
  cbv zeta.
  assert (H : forall st, pending_fresh st -> pending_fresh (run evs st)).
  { induction evs as [|ev evs IH]; intros st Hst; [exact Hst|].
    rewrite run_cons. apply IH. apply dispatch_pending_fresh. exact Hst. }
  assert (Hinit : pending_fresh initial) by (split; constructor).
  specialize (H initial Hinit). split; [exact H|].
  intros message audioBuffer now Hd Hi.
  pose proof (pending_fresh_not_in _ H) as Hn. split; [exact Hn|].
  rewrite dispatch_message, (onmessage_decodes _ _ _ _ Hd), Hi. cbn [fst].
  unfold enqueued. cbn [sourcesRef setSources]. apply set_add_fresh. exact Hn.
Qed.


(** ** Single callbacks at their edges *)

(** X10. The completion callback of a source, run while other sources stay
    pending, only removes the source from the pending set. Run while nothing
    else is pending, even when the source itself was no longer pending, it
    sets the status to LISTENING if the microphone is on and to READY
    otherwise, whatever the status was, IDLE and ERROR included. *)
Theorem source_completion (source : Source) (st : AppState) :
  (set_delete source (sourcesRef st) <> [] ->
   dispatch (SourceEnded source) st =
   setSources (set_delete source (sourcesRef st)) st) /\
  (set_delete source (sourcesRef st) = [] -> isMicOnRef st = isMicOn st ->
   sourcesRef (dispatch (SourceEnded source) st) = [] /\
   status (dispatch (SourceEnded source) st) =
   if isMicOn st then LISTENING else READY).
Proof.
  split.
  - intro Hne.
    assert (E : onended source st =
                setSources (set_delete source (sourcesRef st)) st).
    { unfold onended. cbn.
      destruct (set_delete source (sourcesRef st)); [contradiction|reflexivity]. }
    rewrite dispatch_same_deps; cbn [handle]; rewrite E; reflexivity.
  - intros Hnil Hsync.
    destruct (dispatch_scheduler (SourceEnded source) st) as (_ & Hs & _).
    split.
    + rewrite Hs. cbn [handle]. rewrite onended_sources. exact Hnil.
    + rewrite dispatch_unfold. cbn [handle]. unfold onended. cbn.
      rewrite Hnil. cbn. break_state st. subst vmr.
      destruct vm, vs, vses, vsc; eval_all; reflexivity.
Qed.

(** X11. A message with no audio payload, or with the empty string as
    payload, and with no interruption flag changes nothing at all. *)
Theorem silent_message_noop (message : LiveServerMessage) (now : Q)
    (st : AppState) :
  truthy (inlineData message) = false -> interrupted message = false ->
  dispatch (MessageReceived message now) st = st.
Proof.
  intros Ha Hi. rewrite dispatch_message, onmessage_silent by exact Ha.
  rewrite Hi. reflexivity.
Qed.

(** X12. Audio that arrives in the same message as an interruption is
    discarded: its source is started and then stopped together with every
    source that was pending, nothing is pending afterwards, the cursor is 0
    and the status is SPEAKING. *)
Theorem audio_with_interruption (message : LiveServerMessage)
    (audioBuffer : AudioBuffer) (now : Q) (st : AppState) :
  decodes message audioBuffer -> interrupted message = true ->
  let st' := dispatch (MessageReceived message now) st in
  trace st' =
    trace st
    ++ SourceStart (created st) (Qmax (nextStartTimeRef st) now)
         (duration audioBuffer)
       :: map SourceStop (set_add (created st) (sourcesRef st)) /\
  sourcesRef st' = [] /\
  nextStartTimeRef st' = 0 /\
  status st' = SPEAKING.
Proof.
  intros Hd Hi st'. subst st'.
  rewrite dispatch_message, (onmessage_decodes _ _ _ _ Hd), Hi. cbn [fst].
  unfold onInterrupted, enqueued. cbn. rewrite <- app_assoc.
  repeat split.
Qed.

(** X13. Two microphone toggles in a row give back the state they started
    from, when the ref agrees with the microphone state and the status is
    READY with the microphone off and a session held, LISTENING with the
    microphone on and a session held, SPEAKING, or CONNECTING. *)
Theorem double_toggle_identity (st : AppState) :
  isMicOnRef st = isMicOn st ->
  (status st = READY /\ isMicOn st = false /\ sessionRef st = true) \/
  (status st = LISTENING /\ isMicOn st = true /\ sessionRef st = true) \/
  status st = SPEAKING \/ status st = CONNECTING ->
  dispatch MicClicked (dispatch MicClicked st) = st.
Proof.
  intros Hsync Hcases. break_state st. subst vmr.
  destruct Hcases as [(-> & -> & ->)|[(-> & -> & ->)|[-> | ->]]];
    try destruct vm; eval_all; reflexivity.
Qed.

(** ** Pasted rules *)

Lemma trimStart_blank (s : string) :
  trimStart s = "" <-> forallb isWhiteSpace (list_ascii_of_string s) = true.
Proof.
  induction s as [|c s IH]; cbn [trimStart list_ascii_of_string forallb].
  - split; reflexivity.
  - destruct (isWhiteSpace c); cbn [andb]; [exact IH|].
    split; intro H; discriminate H.
Qed.

Lemma trimStart_head (s : string) :
  match trimStart s with
  | EmptyString => True
  | String c _ => isWhiteSpace c = false
  end.
Proof.
  induction s as [|c s IH]; cbn [trimStart]; [exact I|].
  destruct (isWhiteSpace c) eqn:Hc; [exact IH|exact Hc].
Qed.

Lemma trimEnd_head (c : Ascii.ascii) (s : string) :
  isWhiteSpace c = false -> trimEnd (String c s) <> "".
Proof.
  intro Hc. cbn [trimEnd]. destruct (trimEnd s); [rewrite Hc|]; discriminate.
Qed.

Lemma trim_blank (s : string) :
  trim s = "" <-> forallb isWhiteSpace (list_ascii_of_string s) = true.
Proof.
  rewrite <- trimStart_blank. unfold trim.
  pose proof (trimStart_head s) as Hh.
  destruct (trimStart s) as [|c r].
  - split; reflexivity.
  - split; intro H; [|discriminate H].
    exfalso. apply (trimEnd_head c r Hh). exact H.
Qed.

(** X14. [handlePasteSubmit] ignores a paste that is empty or consists of
    white space only. Any other paste becomes the script, of type raw_text
    and named "Pasted Rules", with the pasted text kept as it was typed
    (not trimmed), and the status becomes FILE_UPLOADED. *)
Theorem paste_submit (pastedText : string) (st : AppState) :
  (forallb isWhiteSpace (list_ascii_of_string pastedText) = true ->
   handlePasteSubmit pastedText st = st) /\
  (forallb isWhiteSpace (list_ascii_of_string pastedText) = false ->
   handlePasteSubmit pastedText st =
   scriptLoaded (mkScript raw_text None (Some pastedText) "Pasted Rules") st /\
   status (handlePasteSubmit pastedText st) = FILE_UPLOADED /\
   script (handlePasteSubmit pastedText st) =
   Some (mkScript raw_text None (Some pastedText) "Pasted Rules")).
Proof.
  unfold handlePasteSubmit. split; intro H.
  - apply trim_blank in H. rewrite H. reflexivity.
  - destruct (String.eqb (trim pastedText) "") eqn:He.
    + apply String.eqb_eq in He. apply trim_blank in He.
      rewrite He in H. discriminate H.
    + unfold scriptLoaded, setScript. destruct (script st); repeat split.
Qed.

(** X16. When a script is loaded while the microphone is off, the status
    becomes FILE_UPLOADED and nothing is opened or sent. When it is loaded
    while the microphone is on and no session is held (as after a session
    that closed with the microphone on), the component connects at once with
    the new script. *)
Theorem script_loaded_then_connect (sc : ScriptContent) (st : AppState) :
  (isMicOn st = false ->
   dispatch (ScriptLoaded sc) st = scriptLoaded sc st /\
   status (dispatch (ScriptLoaded sc) st) = FILE_UPLOADED /\
   script (dispatch (ScriptLoaded sc) st) = Some sc /\
   trace (dispatch (ScriptLoaded sc) st) = trace st) /\
  (isMicOn st = true -> sessionRef st = false ->
   status (dispatch (ScriptLoaded sc) st) = CONNECTING /\
   script (dispatch (ScriptLoaded sc) st) = Some sc /\
   trace (dispatch (ScriptLoaded sc) st) =
   trace st ++ [NewAudioContext 16000; NewAudioContext 24000; LiveConnect sc]).
Proof.
  split.
  - intro Hm. break_state st. subst vm.
    destruct vs, vses, vsc; eval_all; repeat split.
  - intros Hm Hses. break_state st. subst vm vses.
    destruct vs, vsc; eval_all; rewrite <- ?app_assoc; repeat split.
Qed.

End Properties.

(** ** PCM conversion *)

Lemma ToInt16_wrap (q : Q) : ToInt16 (Finite q) = wrapInt16 (truncate q).
Proof.
  unfold ToInt16, wrapInt16. cbv zeta.
  change (2 ^ 16)%Z with 65536%Z. change (2 ^ 15)%Z with 32768%Z.
  destruct (Z.leb_spec 32768 (truncate q mod 65536));
    Z.to_euclidean_division_equations; lia.
Qed.

Lemma truncate_scaled_range (x : Q) :
  -1 <= x -> x < 1 ->
  (- 32768 <= truncate (x * 32768) < 32768)%Z.
Proof.
  destruct x as [n d]. unfold Qle, Qlt, truncate. cbn [Qnum Qden Qmult].
  rewrite Pos.mul_1_r. intros Hlo Hhi.
  pose proof (Z.quot_rem' (n * 32768) (Z.pos d)) as Hqr.
  destruct (Z.le_gt_cases 0 (n * 32768)) as [Hpos | Hneg].
  - pose proof (Z.rem_bound_pos (n * 32768) (Z.pos d) Hpos (Pos2Z.pos_is_pos d)).
    nia.
  - assert (Hle : (n * 32768 <= 0)%Z) by lia.
    pose proof (Z.rem_bound_pos_neg (n * 32768) (Z.pos d) (Pos2Z.pos_is_pos d) Hle).
    nia.
Qed.

Lemma int16Bytes_le (v : Z) :
  int16Bytes v = [(v mod 256)%Z; (v / 256 mod 256)%Z].
Proof.
  unfold int16Bytes. change 255%Z with (Z.ones 8).
  rewrite !Z.land_ones by lia. rewrite Z.shiftr_div_pow2 by lia. reflexivity.
Qed.

(** C6. For every finite sample [x] the stored 16-bit value is
    [trunc(x * 32768)] wrapped into the signed 16-bit range: it is congruent
    to [trunc(x * 32768)] modulo 2^16, it is [trunc(x * 32768)] itself for
    [-1 <= x < 1], and there is no clamping: [x = 1] gives -32768, not 32767.
    Each value is laid out low byte first. *)
Theorem floatToPCM16_wraps (x : Q) :
  let v := ToInt16 (Number_scale (Finite x) 32768) in
  v = pcm16 x /\
  (- 2 ^ 15 <= v < 2 ^ 15)%Z /\
  (v mod 2 ^ 16 = truncate (x * 32768) mod 2 ^ 16)%Z /\
  (-1 <= x -> x < 1 -> v = truncate (x * 32768)) /\
  (x == 1 -> v = (- 32768)%Z) /\
  floatToPCM16 [Finite x] = [(v mod 256)%Z; (v / 256 mod 256)%Z] /\
  forall xs,
    floatToPCM16 (map Finite xs) =
    flat_map (fun y => [(pcm16 y mod 256)%Z; (pcm16 y / 256 mod 256)%Z]) xs.
Proof.
  cbv zeta. cbn [Number_scale]. rewrite ToInt16_wrap. fold (pcm16 x).
  assert (Hwrap : forall n, (- 2 ^ 15 <= wrapInt16 n < 2 ^ 15)%Z /\
                            (wrapInt16 n mod 2 ^ 16 = n mod 2 ^ 16)%Z).
  { intro n. unfold wrapInt16.
    change (2 ^ 16)%Z with 65536%Z. change (2 ^ 15)%Z with 32768%Z.
    Z.to_euclidean_division_equations; lia. }
  split; [reflexivity|].
  split; [apply Hwrap|].
  split; [apply Hwrap|].
  split; [|split; [|split]].
  - intros Hlo Hhi. pose proof (truncate_scaled_range x Hlo Hhi) as Hr.
    unfold pcm16, wrapInt16.
    change (2 ^ 16)%Z with 65536%Z. change (2 ^ 15)%Z with 32768%Z.
    rewrite Z.mod_small by lia. lia.
  - intro H1. unfold pcm16, truncate. destruct x as [n d].
    unfold Qeq in H1. cbn [Qnum Qden Qmult] in *. rewrite Pos.mul_1_r.
    assert (Hn : n = Z.pos d) by lia. rewrite Hn.
    replace (Z.pos d * 32768)%Z with (32768 * Z.pos d)%Z by lia.
    rewrite Z.quot_mul by lia. reflexivity.
  - unfold floatToPCM16, floatToInt16. cbn [map flat_map Number_scale].
    rewrite ToInt16_wrap, app_nil_r. apply int16Bytes_le.
  - intro xs. unfold floatToPCM16, floatToInt16.
    induction xs as [|y xs IH]; [reflexivity|].
    cbn [map flat_map Number_scale]. rewrite ToInt16_wrap.
    fold (pcm16 y). rewrite int16Bytes_le.
    cbn [map] in IH. rewrite IH. reflexivity.
Qed.

Lemma ToInt16_range (x : Number) : (- 32768 <= ToInt16 x < 32768)%Z.
Proof.
  destruct x as [q| |p]; [|cbn; lia|cbn; lia].
  rewrite ToInt16_wrap. unfold wrapInt16.
  change (2 ^ 16)%Z with 65536%Z. change (2 ^ 15)%Z with 32768%Z.
  pose proof (Z.mod_pos_bound (truncate q + 32768) 65536). lia.
Qed.

(** X15. A frame of [n] samples becomes [2 * n] bytes, each between 0 and
    255. Every stored 16-bit value lies between -32768 and 32767, whatever
    the sample is, and a sample that is NaN or an infinity is stored as two
    zero bytes. *)
Theorem floatToPCM16_frame (inputData : list Number) :
  List.length (floatToPCM16 inputData) = (2 * List.length inputData)%nat /\
  Forall (fun b => (0 <= b < 256)%Z) (floatToPCM16 inputData) /\
  Forall (fun v => (- 32768 <= v < 32768)%Z) (floatToInt16 inputData) /\
  forall x,
    x = NaN \/ (exists p, x = Infinity p) ->
    floatToPCM16 (x :: inputData) = 0%Z :: 0%Z :: floatToPCM16 inputData.
Proof.
  unfold floatToPCM16, floatToInt16.
  split; [|split; [|split]].
  - induction inputData as [|x xs IH]; [reflexivity|].
    cbn [map flat_map List.length app int16Bytes]. rewrite IH. lia.
  - induction inputData as [|x xs IH]; [constructor|].
    cbn [map flat_map]. rewrite int16Bytes_le. cbn [app].
    constructor; [apply Z.mod_pos_bound; lia|].
    constructor; [apply Z.mod_pos_bound; lia|exact IH].
  - induction inputData as [|x xs IH]; [constructor|].
    cbn [map]. constructor; [apply ToInt16_range|exact IH].
  - intros x [-> | [p ->]]; reflexivity.
Qed.

(** * Concrete runs *)

Lemma demoChunk_decodes : decodes (utils := demoUtils) demoChunk (mkBuffer (3 # 24000)).
Proof. exists "AAAAAAAA". repeat split. Defined.

Lemma demoMalformed_malformed : malformed (utils := demoUtils) demoMalformed.
Proof. exists "!!!!". repeat split. Defined.

Example demoReady_fields :
  status demoReady = READY /\ isMicOn demoReady = false /\
  isMicOnRef demoReady = false /\ sessionRef demoReady = true /\
  sourcesRef demoReady = [] /\ nextStartTimeRef demoReady = 0.
Proof. repeat split. Qed.

(** ** C1 *)

(** The second chunk arrives after the first has ended: it starts at its
    arrival time, 1, and not at 0 + 3/24000. *)
Lemma enqueue_gap_counterexample :
  starts (trace (demoRun [MessageReceived demoChunk 0;
                          MessageReceived demoChunk 1] demoReady)) =
  [(0, 3 # 24000); (1, 3 # 24000)] /\
  Qeq_bool 1 (0 + (3 # 24000)) = false.
Proof. split; vm_compute; reflexivity. Qed.

Lemma enqueue_schedule_witness :
  starts (trace (demoDispatch (MessageReceived demoChunk (1 # 24000))
                   (demoRun [AudioProcess [Finite (1 # 2)]; MicClicked]
                      (demoDispatch (MessageReceived demoChunk 0) demoReady)))) =
  starts (trace demoReady) ++
  [(Qmax (nextStartTimeRef demoReady) 0, 3 # 24000);
   (Qmax (Qmax (nextStartTimeRef demoReady) 0 + (3 # 24000)) (1 # 24000),
    3 # 24000)].
Proof.
  destruct (enqueue_schedule (utils := demoUtils) demoReady
              demoChunk demoChunk (mkBuffer (3 # 24000)) (mkBuffer (3 # 24000))
              0 (1 # 24000) [AudioProcess [Finite (1 # 2)]; MicClicked]
              demoChunk_decodes eq_refl demoChunk_decodes eq_refl)
    as (_ & _ & _ & H & _).
  exact H.
Defined.

(** ** C2 *)

(** After a chunk is enqueued and then flushed, nothing is pending and the
    status is still SPEAKING. *)
Lemma flush_leaves_speaking_counterexample :
  sourcesRef (demoRun [MessageReceived demoChunk 0;
                       MessageReceived demoInterruption (1 # 24000)] demoReady) = [] /\
  status (demoRun [MessageReceived demoChunk 0;
                   MessageReceived demoInterruption (1 # 24000)] demoReady) = SPEAKING.
Proof. split; vm_compute; reflexivity. Qed.

Lemma status_and_pending_witness :
  (status (demoDispatch (MessageReceived demoChunk 0) demoReady) = SPEAKING /\
   sourcesRef (demoDispatch (MessageReceived demoChunk 0) demoReady) <> []) /\
  speaking_iff_pending (demoDispatch (SourceEnded 0%nat) demoPlaying) /\
  sourcesRef (demoDispatch (MessageReceived demoInterruption 1) demoPlaying) = [].
Proof.
  destruct (status_and_pending (utils := demoUtils) demoReady) as (He & _ & _).
  destruct (status_and_pending (utils := demoUtils) demoPlaying)
    as (_ & Hc & Hf).
  split; [exact (He demoChunk _ 0 demoChunk_decodes eq_refl)|].
  split.
  - apply Hc. unfold speaking_iff_pending. vm_compute.
    split; intro H; [discriminate|reflexivity].
  - exact (proj1 (Hf demoInterruption 1 eq_refl eq_refl)).
Defined.

(** ** C3 *)

(** An audio chunk that arrives in status ERROR sets the status to SPEAKING. *)
Lemma error_not_sticky_counterexample :
  status demoError = ERROR /\
  status (demoDispatch (MessageReceived demoChunk 0) demoError) = SPEAKING.
Proof. split; vm_compute; reflexivity. Qed.

Lemma inbound_audio_sets_speaking_witness :
  status (demoDispatch (MessageReceived demoChunk 0) demoError) = SPEAKING /\
  status (demoDispatch (MessageReceived demoInterruption 0) demoError) = ERROR.
Proof.
  destruct (inbound_audio_sets_speaking (utils := demoUtils) demoChunk 0
              demoError) as (Ha & _).
  destruct (inbound_audio_sets_speaking (utils := demoUtils)
              demoInterruption 0 demoError) as (_ & Hs).
  split; [exact (Ha eq_refl)|exact (Hs eq_refl)].
Defined.

(** ** C4 *)

(** Two sources are pending and the microphone is off; after the
    interruption both are stopped and nothing is pending, but the status is
    SPEAKING, not READY. *)
Lemma interruption_status_counterexample :
  sourcesRef demoPlaying = [0%nat; 1%nat] /\
  isMicOn demoPlaying = false /\
  sourcesRef (demoDispatch (MessageReceived demoInterruption 1) demoPlaying) = [] /\
  status (demoDispatch (MessageReceived demoInterruption 1) demoPlaying) = SPEAKING.
Proof. repeat split; vm_compute; reflexivity. Qed.

Lemma interruption_flushes_witness :
  trace (demoDispatch (MessageReceived demoInterruption 1) demoPlaying) =
  trace demoPlaying ++ [SourceStop 0%nat; SourceStop 1%nat] /\
  nextStartTimeRef (demoDispatch (MessageReceived demoInterruption 1) demoPlaying) = 0 /\
  status (demoDispatch (SourceEnded 0%nat)
            (demoDispatch (MessageReceived demoInterruption 1) demoPlaying)) = READY.
Proof.
  destruct (interruption_flushes (utils := demoUtils) demoPlaying
              demoInterruption 1 eq_refl eq_refl)
    as (Ht & _ & Hn & _ & _ & He).
  split; [exact Ht|]. split; [exact Hn|]. exact (He 0%nat eq_refl).
Defined.

(** ** C5 *)


Example capture_sends :
  audioSends
    (trace (demoRun (map AudioProcess [[Finite (1 # 2)]; [Finite (-1 # 4)]]
                       ++ MicClicked
                       :: map AudioProcess [[Finite 1; Finite 0]; [NaN]])
              demoReady)) = ["AIAAAA"; "AAA"].
Proof. vm_compute. reflexivity. Qed.

(** ** C6 *)

Lemma floatToPCM16_wraps_witness :
  ToInt16 (Number_scale (Finite (-1 # 3)) 32768) = truncate ((-1 # 3) * 32768) /\
  ToInt16 (Number_scale (Finite 1) 32768) = (- 32768)%Z.
Proof.
  destruct (floatToPCM16_wraps (-1 # 3)) as (_ & _ & _ & Hin & _).
  destruct (floatToPCM16_wraps 1) as (_ & _ & _ & _ & Hone & _).
  split.
  - apply Hin; vm_compute; [intro H; discriminate H|reflexivity].
  - apply Hone. reflexivity.
Defined.

Example floatToPCM16_samples :
  floatToPCM16 [Finite (1 # 2); Finite (-1 # 3); Finite 1; Finite (-1); Finite 3; NaN] =
  [0; 64; 86; 213; 0; 128; 0; 128; 0; 128; 0; 0]%Z.
Proof. vm_compute. reflexivity. Qed.

(** ** C7 *)

(** With no script the promise of [connectToGemini] is fulfilled and no
    error message is set: the call does not fail. *)
Lemma connect_silent_counterexample :
  script initial = None /\
  snd (connectToGemini initial) = Fulfilled /\
  errorMsg (fst (connectToGemini initial)) = None /\
  status (fst (connectToGemini initial)) = IDLE.
Proof. repeat split. Qed.

Lemma connect_without_script_witness :
  connectToGemini initial = (initial, Fulfilled) /\
  status (fst (connectToGemini (scriptLoaded demoScript initial))) = CONNECTING.
Proof.
  destruct (connect_without_script initial) as (Hnone & _).
  destruct (connect_without_script (scriptLoaded demoScript initial)) as (_ & Hsome).
  split.
  - apply Hnone. reflexivity.
  - exact (proj1 (proj2 (Hsome demoScript eq_refl))).
Defined.

(** ** C8 *)

(** A payload that does not decode arrives in status READY: nothing is
    scheduled, and the status is SPEAKING afterwards. *)
Lemma malformed_changes_status_counterexample :
  status demoReady = READY /\
  demoDecodeAudio "!!!!" = None /\
  sourcesRef (demoDispatch (MessageReceived demoMalformed 0) demoReady) = [] /\
  status (demoDispatch (MessageReceived demoMalformed 0) demoReady) = SPEAKING.
Proof. repeat split; vm_compute; reflexivity. Qed.

Lemma malformed_payload_drops_chunk_witness :
  trace (demoDispatch (MessageReceived demoMalformed (1 # 24000))
           (demoDispatch (MessageReceived demoChunk 0) demoReady)) =
  trace (demoDispatch (MessageReceived demoChunk 0) demoReady) /\
  exists start,
    trace (demoDispatch (MessageReceived demoChunk (2 # 24000))
             (demoDispatch (MessageReceived demoMalformed (1 # 24000))
                (demoDispatch (MessageReceived demoChunk 0) demoReady))) =
    trace (demoDispatch (MessageReceived demoChunk 0) demoReady) ++
    [SourceStart 1%nat start (3 # 24000)] /\
    start == 3 # 24000.
Proof.
  destruct (malformed_payload_drops_chunk (utils := demoUtils)
              demoMalformed (1 # 24000)
              (demoDispatch (MessageReceived demoChunk 0) demoReady)
              demoMalformed_malformed)
    as (_ & _ & _ & _ & Ht & _ & Hnext).
  split; [exact Ht|].
  destruct (Hnext demoChunk (mkBuffer (3 # 24000)) (2 # 24000)
              demoChunk_decodes eq_refl)
    as (start & Hs & Heq & _).
  - vm_compute. intro H. discriminate H.
  - exists start. split; [exact Hs|]. rewrite Heq. vm_compute. reflexivity.
Defined.

(** ** C9 *)


(** ** C10 *)


(** * Concrete runs of the further properties *)

Ltac by_eval :=
  vm_compute; first [reflexivity | let H := fresh in intro H; discriminate H].


Lemma listening_only_with_mic_witness :
  status (run (utils := demoUtils)
            [ScriptLoaded demoScript; MicClicked; SessionResolved; SessionOpened]
            initial) = LISTENING /\
  isMicOn (run (utils := demoUtils)
             [ScriptLoaded demoScript; MicClicked; SessionResolved; SessionOpened]
             initial) = true.
Proof.
  split; [by_eval|].
  apply (listening_only_with_mic (utils := demoUtils)). by_eval.
Defined.

Lemma reset_returns_to_idle_witness :
  status (demoDispatch ResetClicked demoPlaying) = IDLE /\
  sourcesRef (demoDispatch ResetClicked demoPlaying) = sourcesRef demoPlaying /\
  trace (demoDispatch ResetClicked demoPlaying) = trace demoPlaying ++ [SessionClose].
Proof.
  assert (Hsync : isMicOnRef demoPlaying = isMicOn demoPlaying) by by_eval.
  destruct (reset_returns_to_idle (utils := demoUtils) demoPlaying Hsync)
    as (Hs & _ & _ & _ & Ht & _ & Hp & _).
  split; [exact Hs|]. split; [exact Hp|]. exact Ht.
Defined.

Lemma session_end_keeps_capture_witness :
  isMicOnRef (demoDispatch SessionClosed demoListening) = true /\
  demoDispatch MicClicked (demoDispatch SessionClosed demoListening) =
  demoDispatch SessionClosed demoListening /\
  audioSends (trace (demoDispatch (AudioProcess [Finite (1 # 2)])
                       (demoDispatch SessionClosed demoListening))) =
  audioSends (trace demoListening) ++ [demoEncode (floatToPCM16 [Finite (1 # 2)])].
Proof.
  destruct (session_end_keeps_capture (utils := demoUtils) SessionClosed
              demoListening eq_refl)
    as (_ & _ & Hr & _ & _ & _ & Ht & Hf).
  assert (Hon : isMicOnRef demoListening = true) by by_eval.
  split; [unfold demoDispatch; rewrite Hr; exact Hon|].
  split; [exact Ht|]. exact (Hf Hon [Finite (1 # 2)]).
Defined.

Lemma connect_only_when_needed_witness :
  status (demoDispatch MicClicked (scriptLoaded demoScript initial)) = CONNECTING /\
  sessionRef (demoDispatch MicClicked (scriptLoaded demoScript initial)) = false.
Proof.
  unfold demoDispatch.
  assert (Hc : connects (trace (dispatch (utils := demoUtils) MicClicked
                                  (scriptLoaded demoScript initial))) <>
               connects (trace (scriptLoaded demoScript initial))) by by_eval.
  destruct (connect_only_when_needed (utils := demoUtils) MicClicked
              (scriptLoaded demoScript initial) Hc)
    as (_ & Hs & _ & Hses & _).
  split; [exact Hs|exact Hses].
Defined.


Lemma pending_sources_fresh_witness :
  sourcesRef (demoDispatch (MessageReceived demoChunk 0) demoPlaying) = [0; 1; 2]%nat.
Proof.
  destruct (pending_sources_fresh (utils := demoUtils)
              [ScriptLoaded demoScript; MicClicked; SessionResolved; SessionOpened;
               MicStreamGranted; MicClicked;
               MessageReceived demoChunk 0; MessageReceived demoChunk 0])
    as (_ & Hadd).
  destruct (Hadd demoChunk (mkBuffer (3 # 24000)) 0 demoChunk_decodes eq_refl)
    as (_ & Hs).
  unfold demoDispatch, demoPlaying, demoReady, demoRun.
  rewrite <- run_app. cbn [app]. rewrite Hs. by_eval.
Defined.


Lemma source_completion_witness :
  demoDispatch (SourceEnded 0%nat) demoPlaying =
  setSources [1%nat] demoPlaying /\
  status (demoDispatch (SourceEnded 7%nat) demoError) = READY.
Proof.
  destruct (source_completion (utils := demoUtils) 0%nat demoPlaying) as (Hsome & _).
  destruct (source_completion (utils := demoUtils) 7%nat demoError) as (_ & Hlast).
  split.
  - unfold demoDispatch. rewrite Hsome; by_eval.
  - destruct Hlast as (_ & Hs); [by_eval|by_eval|].
    unfold demoDispatch. rewrite Hs. by_eval.
Defined.

Lemma silent_message_noop_witness :
  demoDispatch (MessageReceived (mkMessage (Some "") false) 1) demoPlaying =
  demoPlaying.
Proof.
  apply (silent_message_noop (utils := demoUtils)); reflexivity.
Defined.

Lemma audio_with_interruption_witness :
  sourcesRef (demoDispatch (MessageReceived (mkMessage (Some "AAAAAAAA") true) 1)
                demoPlaying) = [] /\
  status (demoDispatch (MessageReceived (mkMessage (Some "AAAAAAAA") true) 1)
            demoPlaying) = SPEAKING.
Proof.
  assert (Hd : decodes (utils := demoUtils) (mkMessage (Some "AAAAAAAA") true)
                 (mkBuffer (3 # 24000))).
  { exists "AAAAAAAA". repeat split. }
  destruct (audio_with_interruption (utils := demoUtils) _ _ 1 demoPlaying Hd eq_refl)
    as (_ & Hs & _ & Hst).
  split; [exact Hs|exact Hst].
Defined.

Lemma double_toggle_identity_witness :
  demoDispatch MicClicked (demoDispatch MicClicked demoReady) = demoReady /\
  demoDispatch MicClicked (demoDispatch MicClicked demoPlaying) = demoPlaying.
Proof.
  split.
  - apply (double_toggle_identity (utils := demoUtils)); [by_eval|].
    left. repeat split; by_eval.
  - apply (double_toggle_identity (utils := demoUtils)); [by_eval|].
    right. right. left. by_eval.
Defined.

Lemma paste_submit_witness :
  handlePasteSubmit "  " initial = initial /\
  script (handlePasteSubmit " Cthulhu rules " initial) =
  Some (mkScript raw_text None (Some " Cthulhu rules ") "Pasted Rules").
Proof.
  destruct (paste_submit "  " initial) as (Hblank & _).
  destruct (paste_submit " Cthulhu rules " initial) as (_ & Htext).
  split.
  - apply Hblank. reflexivity.
  - destruct Htext as (_ & _ & Hs); [reflexivity|exact Hs].
Defined.

Lemma script_loaded_then_connect_witness :
  status (demoDispatch (ScriptLoaded demoImage) initial) = FILE_UPLOADED /\
  status (demoDispatch (ScriptLoaded demoImage)
            (setIsMicOnRef true (setIsMicOn true initial))) = CONNECTING.
Proof.
  destruct (script_loaded_then_connect (utils := demoUtils) demoImage initial)
    as (Hoff & _).
  destruct (script_loaded_then_connect (utils := demoUtils) demoImage
              (setIsMicOnRef true (setIsMicOn true initial)))
    as (_ & Hon).
  split.
  - exact (proj1 (proj2 (Hoff eq_refl))).
  - exact (proj1 (Hon eq_refl eq_refl)).
Defined.
